(** * file-ref-tags: the reference store, the snippet scan and the jumps

    A shallow embedding of [src/extension.ts]:
    - [ReferenceDataManager] (load, save, add, reorder, delete, rename) as
      computations in a state-and-exception monad over the manager's
      fields, the object heap, the file system and the console;
    - the scan of [jumpToGlobalSnippet] over the workspace files;
    - the command [addGlobalUniqueSnippet];
    - [jumpToFile] and [jumpToFileAndSnippet].

    JavaScript strings are modelled by [string]; one [ascii] stands for one
    code unit, so the model covers strings whose code units fit in 8 bits. *)

From Stdlib Require Import ZArith Lia Ascii.
From stdpp Require Import base option list gmap strings pretty.

Local Open Scope string_scope.
Local Open Scope Z_scope.
Local Open Scope list_scope.

(** ** Built-ins of the JavaScript runtime used by the extension *)

Module JS.

(** [text.indexOf(fragment)]: the index of the first occurrence, or [-1]. *)
Fixpoint indexOfFrom (fragment text : string) (i : Z) : Z :=
  if String.prefix fragment text then i
  else match text with
       | EmptyString => -1
       | String _ text' => indexOfFrom fragment text' (i + 1)
       end.

Definition indexOf (text fragment : string) : Z := indexOfFrom fragment text 0.

(** [text.includes(fragment)]. *)
Definition str_includes (text fragment : string) : bool :=
  negb (indexOf text fragment =? -1).

(** [s.substring(start, end)] for [0 <= start <= end]. *)
Definition substring (s : string) (start end_ : nat) : string :=
  String.substring start (end_ - start) s.

(** [s.length]. *)
Definition length (s : string) : Z := Z.of_nat (String.length s).

(** [s.substr(start, len)] for non-negative arguments. *)
Definition substr (s : string) (start len : nat) : string :=
  String.substring start len s.

(** [arr.includes(x)] on an array of strings. *)
Definition includes (arr : list string) (x : string) : bool :=
  bool_decide (x ∈ arr).

(** [arr.find(p)]: the first element satisfying [p], if any. *)
Definition find {A} (p : A → bool) (arr : list A) : option A := List.find p arr.

(** [arr.filter(p)]. *)
Definition filter {A} (p : A → bool) (arr : list A) : list A := List.filter p arr.

(** [arr.forEach(f)] where the callback updates an accumulator. *)
Definition forEach {A B} (arr : list A) (f : B → A → B) (acc : B) : B :=
  foldl f acc arr.

(** [arr.push(x)]. *)
Definition push {A} (arr : list A) (x : A) : list A := (arr ++ [x])%list.

End JS.

(** ** Computations that read and write a state and may throw *)

Module Eff.

Inductive Error :=
| ENOENT (path : string)
| EACCES (path : string)
| SyntaxError
| OpenFailed (uri : string).

(** How a run ends.  [Untyped]: the run has stored a value that its
    declared TypeScript type does not describe (the result of [JSON.parse]
    is not checked against the type it is assigned at); JavaScript goes on
    with that value, the embedding does not follow it. *)
Inductive Res (A : Type) :=
| Ok (a : A)
| Throw (e : Error)
| Untyped.
Arguments Ok {A} a.
Arguments Throw {A} e.
Arguments Untyped {A}.

Definition M (S A : Type) : Type := S → Res A * S.

Section Ops.
Context {S : Type}.

Definition ret {A} (a : A) : M S A := λ σ, (Ok a, σ).

Definition bind {A B} (m : M S A) (k : A → M S B) : M S B :=
  λ σ, match m σ with
       | (Ok a, σ') => k a σ'
       | (Throw e, σ') => (Throw e, σ')
       | (Untyped, σ') => (Untyped, σ')
       end.

Definition throw {A} (e : Error) : M S A := λ σ, (Throw e, σ).

Definition untyped {A} : M S A := λ σ, (Untyped, σ).

(** [try { m } catch (e) { h e }]: the state changes made before the
    throw are kept. *)
Definition try_catch {A} (m : M S A) (h : Error → M S A) : M S A :=
  λ σ, match m σ with
       | (Ok a, σ') => (Ok a, σ')
       | (Throw e, σ') => h e σ'
       | (Untyped, σ') => (Untyped, σ')
       end.

Definition gets {A} (f : S → A) : M S A := λ σ, (Ok (f σ), σ).

Definition modify (f : S → S) : M S unit := λ σ, (Ok tt, f σ).
End Ops.

End Eff.

Export Eff.

Declare Scope eff_scope.
Delimit Scope eff_scope with eff.
Notation "x <- m ;; k" := (bind m (λ x, k))
  (at level 20, m at level 99, k at level 200, only parsing) : eff_scope.
Notation "'do' m ;; k" := (bind m (λ _, k))
  (at level 20, m at level 99, k at level 200, only parsing) : eff_scope.
Local Open Scope eff_scope.

(** ** The reference record *)

(** [ReferenceItem['type']]: 'file' | 'file-snippet' | 'global-snippet' |
    'comment'. *)
Inductive ReferenceType := TFile | TFileSnippet | TGlobalSnippet | TComment.

(** Modelled from the spec: [interface ReferenceItem], which the extension
    imports from [./types/referenct]; that file is not among the sources.
    The fields are those of the data model and of the persisted format
    (the interface that an earlier revision of [extension.ts] declares
    inline has them too).  An optional property that is absent, or
    [undefined], is [None]. *)
Record ReferenceItem := {
  id : string;
  type : ReferenceType;
  title : string;
  filePath : option string;
  snippet : option string;
  createdAt : string;
  updatedAt : string
}.

(** [Omit<ReferenceItem, 'id' | 'createdAt' | 'updatedAt'>], the argument of
    [addReference]. *)
Record NewReference := {
  new_type : ReferenceType;
  new_title : string;
  new_filePath : option string;
  new_snippet : option string
}.

#[global] Instance ReferenceType_eq_dec : EqDecision ReferenceType.
Proof. solve_decision. Defined.

#[global] Instance ReferenceItem_eq_dec : EqDecision ReferenceItem.
Proof. solve_decision. Defined.

#[global] Instance ReferenceItem_inhabited : Inhabited ReferenceItem :=
  populate {| id := ""; type := TComment; title := ""; filePath := None;
              snippet := None; createdAt := ""; updatedAt := "" |}.

(** ** JSON text of a collection: [JSON.stringify(refs, null, 2)] and
    [JSON.parse] *)

Module Json.

Definition DQUOTE : ascii := "034"%char.
Definition BSLASH : ascii := "092"%char.
Definition NL : ascii := "010"%char.

Definition hexdigit (n : N) : ascii :=
  match String.get (N.to_nat n) "0123456789abcdef" with
  | Some c => c
  | None => "0"%char
  end.

Definition hexval (c : ascii) : option N :=
  let n := N_of_ascii c in
  if ((48 <=? n) && (n <=? 57))%N then Some (n - 48)%N
  else if ((97 <=? n) && (n <=? 102))%N then Some (n - 87)%N
  else if ((65 <=? n) && (n <=? 70))%N then Some (n - 55)%N
  else None.

(** QuoteJSONString, one code unit: the quote, the backslash and the
    control characters are escaped, everything else is copied. *)
Definition escape_char (c : ascii) : string :=
  let n := N_of_ascii c in
  if (n =? 34)%N then String BSLASH (String DQUOTE "")
  else if (n =? 92)%N then String BSLASH (String BSLASH "")
  else if (n =? 8)%N then String BSLASH "b"
  else if (n =? 9)%N then String BSLASH "t"
  else if (n =? 10)%N then String BSLASH "n"
  else if (n =? 12)%N then String BSLASH "f"
  else if (n =? 13)%N then String BSLASH "r"
  else if (n <? 32)%N then
    String BSLASH ("u00" +:+ String (hexdigit (n / 16)) (String (hexdigit (n mod 16)) ""))
  else String c "".

Fixpoint escape (s : string) : string :=
  match s with
  | EmptyString => ""
  | String c s' => escape_char c +:+ escape s'
  end.

Definition quote (s : string) : string :=
  String DQUOTE (escape s +:+ String DQUOTE "").

(** The character after a backslash in a JSON string. *)
Definition unescape (e : ascii) : option ascii :=
  let n := N_of_ascii e in
  if (n =? 34)%N then Some DQUOTE
  else if (n =? 92)%N then Some BSLASH
  else if (n =? 47)%N then Some "/"%char
  else if (n =? 98)%N then Some "008"%char
  else if (n =? 102)%N then Some "012"%char
  else if (n =? 110)%N then Some "010"%char
  else if (n =? 114)%N then Some "013"%char
  else if (n =? 116)%N then Some "009"%char
  else None.

Definition hex4 (h1 h2 h3 h4 : ascii) : option N :=
  a ← hexval h1; b ← hexval h2; c ← hexval h3; d ← hexval h4;
  Some (((a * 16 + b) * 16 + c) * 16 + d)%N.

(** A string of the text, decoded.  [None]: the string has a code unit
    that does not fit in 8 bits (an escape [\uXXXX] from 0100 on). *)
Definition Text : Type := option string.

(** A JSON value; a number is kept as it is written. *)
#[warnings="-register-all"] Inductive Value :=
| JNull
| JBool (b : bool)
| JNumber (lexeme : string)
| JString (s : Text)
| JArray (vs : list Value)
| JObject (ms : list (Text * Value)).

Definition cons_res (c : ascii) (r : option (Text * string)) : option (Text * string) :=
  match r with
  | Some (s, rest) => Some (String c <$> s, rest)
  | None => None
  end.

Definition wide_res (r : option (Text * string)) : option (Text * string) :=
  match r with
  | Some (_, rest) => Some (None, rest)
  | None => None
  end.

(** The body of a JSON string, after its opening quote: the decoded string
    and the text after the closing quote. *)
Fixpoint parse_chars (s : string) : option (Text * string) :=
  match s with
  | EmptyString => None
  | String c s1 =>
    let n := N_of_ascii c in
    if (n =? 34)%N then Some (Some "", s1)
    else if (n =? 92)%N then
      match s1 with
      | EmptyString => None
      | String e s2 =>
        match unescape e with
        | Some c' => cons_res c' (parse_chars s2)
        | None =>
          if (N_of_ascii e =? 117)%N then
            match s2 with
            | String h1 (String h2 (String h3 (String h4 s3))) =>
              match hex4 h1 h2 h3 h4 with
              | Some u =>
                if (u <? 256)%N then cons_res (ascii_of_N u) (parse_chars s3)
                else wide_res (parse_chars s3)
              | None => None
              end
            | _ => None
            end
          else None
        end
      end
    else if (n <? 32)%N then None
    else cons_res c (parse_chars s1)
  end.

Definition parse_string (s : string) : option (Text * string) :=
  match s with
  | String c s1 => if (N_of_ascii c =? 34)%N then parse_chars s1 else None
  | EmptyString => None
  end.

Definition is_ws (c : ascii) : bool :=
  let n := N_of_ascii c in
  ((n =? 32) || (n =? 9) || (n =? 10) || (n =? 13))%N.

Fixpoint skip_ws (s : string) : string :=
  match s with
  | String c s' => if is_ws c then skip_ws s' else s
  | EmptyString => s
  end.

(** The next token must be the character [c]. *)
Definition expect (c : ascii) (s : string) : option string :=
  match skip_ws s with
  | String d s' => if Ascii.eqb d c then Some s' else None
  | EmptyString => None
  end.

(** The text must go on with [word]. *)
Fixpoint strip (word s : string) : option string :=
  match word with
  | EmptyString => Some s
  | String c word' =>
    match s with
    | String d s' => if Ascii.eqb c d then strip word' s' else None
    | EmptyString => None
    end
  end.

Definition is_digit (c : ascii) : bool :=
  let n := N_of_ascii c in ((48 <=? n) && (n <=? 57))%N.

(** The digits at the head of the text, and the text after them. *)
Fixpoint digits (s : string) : string * string :=
  match s with
  | String c s' =>
    if is_digit c then let r := digits s' in (String c r.1, r.2) else ("", s)
  | EmptyString => ("", s)
  end.

(** At least one digit. *)
Definition digits1 (s : string) : option (string * string) :=
  match digits s with
  | (EmptyString, _) => None
  | r => Some r
  end.

(** [0], or a digit from 1 to 9 and more digits. *)
Definition parse_int (s : string) : option (string * string) :=
  match s with
  | String c s' =>
    if Ascii.eqb c "0" then Some ("0", s')
    else if is_digit c then let r := digits s' in Some (String c r.1, r.2)
    else None
  | EmptyString => None
  end.

(** An optional fraction: a point and at least one digit. *)
Definition parse_frac (s : string) : option (string * string) :=
  match s with
  | String c s' =>
    if Ascii.eqb c "." then '(d, r) ← digits1 s'; Some (String c d, r)
    else Some ("", s)
  | EmptyString => Some ("", s)
  end.

(** An optional exponent: [e] or [E], an optional sign, at least one
    digit. *)
Definition parse_exp (s : string) : option (string * string) :=
  match s with
  | String c s' =>
    if Ascii.eqb c "e" || Ascii.eqb c "E" then
      match s' with
      | String g s'' =>
        if Ascii.eqb g "+" || Ascii.eqb g "-"
        then '(d, r) ← digits1 s''; Some (String c (String g d), r)
        else '(d, r) ← digits1 s'; Some (String c d, r)
      | EmptyString => None
      end
    else Some ("", s)
  | EmptyString => Some ("", s)
  end.

Definition parse_unsigned (s : string) : option (string * string) :=
  '(i, s1) ← parse_int s;
  '(f, s2) ← parse_frac s1;
  '(e, s3) ← parse_exp s2;
  Some (i +:+ f +:+ e, s3).

Definition parse_number (s : string) : option (string * string) :=
  match s with
  | String c s' =>
    if Ascii.eqb c "-" then '(n, r) ← parse_unsigned s'; Some (String c n, r)
    else parse_unsigned s
  | EmptyString => None
  end.

(** A value at the head of the text, and the text after it.  The three
    functions call each other with less fuel; [value_of_text] gives them
    enough for every text. *)
Fixpoint parse_value (fuel : nat) (s : string) : option (Value * string) :=
  match fuel with
  | O => None
  | S fuel' =>
    match skip_ws s with
    | EmptyString => None
    | String c s1 =>
      if Ascii.eqb c "{" then
        match expect "}" s1 with
        | Some s2 => Some (JObject [], s2)
        | None => '(ms, s2) ← parse_members fuel' s1; Some (JObject ms, s2)
        end
      else if Ascii.eqb c "[" then
        match expect "]" s1 with
        | Some s2 => Some (JArray [], s2)
        | None => '(vs, s2) ← parse_elements fuel' s1; Some (JArray vs, s2)
        end
      else if Ascii.eqb c DQUOTE then '(t, s2) ← parse_chars s1; Some (JString t, s2)
      else if Ascii.eqb c "t" then s2 ← strip "rue" s1; Some (JBool true, s2)
      else if Ascii.eqb c "f" then s2 ← strip "alse" s1; Some (JBool false, s2)
      else if Ascii.eqb c "n" then s2 ← strip "ull" s1; Some (JNull, s2)
      else '(n, s2) ← parse_number (String c s1); Some (JNumber n, s2)
    end
  end
with parse_members (fuel : nat) (s : string) : option (list (Text * Value) * string) :=
  match fuel with
  | O => None
  | S fuel' =>
    '(k, s1) ← parse_string (skip_ws s);
    s2 ← expect ":" s1;
    '(v, s3) ← parse_value fuel' s2;
    match skip_ws s3 with
    | String d s4 =>
      if Ascii.eqb d "," then
        '(ms, s5) ← parse_members fuel' s4; Some ((k, v) :: ms, s5)
      else if Ascii.eqb d "}" then Some ([(k, v)], s4)
      else None
    | EmptyString => None
    end
  end
with parse_elements (fuel : nat) (s : string) : option (list Value * string) :=
  match fuel with
  | O => None
  | S fuel' =>
    '(v, s1) ← parse_value fuel' s;
    match skip_ws s1 with
    | String d s2 =>
      if Ascii.eqb d "," then
        '(vs, s3) ← parse_elements fuel' s2; Some (v :: vs, s3)
      else if Ascii.eqb d "]" then Some ([v], s2)
      else None
    | EmptyString => None
    end
  end.

(** [JSON.parse(data)]: the value of a text that is one JSON value between
    white space; [None] stands for the [SyntaxError] of any other text. *)
Definition value_of_text (data : string) : option Value :=
  '(v, rest) ← parse_value (2 * String.length data + 2) data;
  match skip_ws rest with
  | EmptyString => Some v
  | String _ _ => None
  end.

(** An object whose values are strings, as an association list in the
    order of the text. *)
Definition Obj : Type := list (string * string).

(** The text [JSON.stringify] writes with an indentation of two spaces. *)
Definition print_member (kv : string * string) : string :=
  quote kv.1 +:+ ": " +:+ quote kv.2.

Fixpoint print_members (kvs : Obj) : string :=
  match kvs with
  | [] => ""
  | [kv] => print_member kv
  | kv :: rest => print_member kv +:+ String "," (String NL ("    " +:+ print_members rest))
  end.

Definition print_object (o : Obj) : string :=
  match o with
  | [] => "{}"
  | _ => String "{" (String NL ("    " +:+ print_members o +:+ String NL "  }"))
  end.

Fixpoint print_elements (os : list Obj) : string :=
  match os with
  | [] => ""
  | [o] => print_object o
  | o :: rest => print_object o +:+ String "," (String NL ("  " +:+ print_elements rest))
  end.

Definition print_document (os : list Obj) : string :=
  match os with
  | [] => "[]"
  | _ => String "[" (String NL ("  " +:+ print_elements os +:+ String NL "]"))
  end.

Definition type_name (t : ReferenceType) : string :=
  match t with
  | TFile => "file"
  | TFileSnippet => "file-snippet"
  | TGlobalSnippet => "global-snippet"
  | TComment => "comment"
  end.

Definition type_of_name (s : string) : option ReferenceType :=
  if String.eqb s "file" then Some TFile
  else if String.eqb s "file-snippet" then Some TFileSnippet
  else if String.eqb s "global-snippet" then Some TGlobalSnippet
  else if String.eqb s "comment" then Some TComment
  else None.

Definition opt_member (k : string) (v : option string) : Obj :=
  match v with
  | Some s => [(k, s)]
  | None => []
  end.

(** The own properties of a record, in the order [addReference] creates
    them: the spread argument first, then [id], [createdAt], [updatedAt];
    an [undefined] property is left out. *)
Definition encode (r : ReferenceItem) : Obj :=
  ([("type", type_name (type r)); ("title", title r)]
   ++ opt_member "filePath" (filePath r)
   ++ opt_member "snippet" (snippet r)
   ++ [("id", id r); ("createdAt", createdAt r); ("updatedAt", updatedAt r)])%list.

(** The next property, if it has the key [k]. *)
Definition take (k : string) (o : Obj) : option string * Obj :=
  match o with
  | (k', v) :: rest => if String.eqb k' k then (Some v, rest) else (None, o)
  | [] => (None, o)
  end.

(** The record whose own properties are exactly those of [o], in the
    order in which the extension creates them, the optional ones present
    or not: the inverse of [encode].  An object with another property, a
    property less or the properties in another order has no record. *)
Definition decode (o : Obj) : option ReferenceItem :=
  let '(t, o) := take "type" o in
  let '(ti, o) := take "title" o in
  let '(fp, o) := take "filePath" o in
  let '(sn, o) := take "snippet" o in
  let '(i, o) := take "id" o in
  let '(c, o) := take "createdAt" o in
  let '(u, o) := take "updatedAt" o in
  match o with
  | [] =>
    t ← t ≫= type_of_name; ti ← ti; i ← i; c ← c; u ← u;
    Some {| id := i; type := t; title := ti; filePath := fp; snippet := sn;
            createdAt := c; updatedAt := u |}
  | _ :: _ => None
  end.

Definition stringify (refs : list ReferenceItem) : string :=
  print_document (encode <$> refs).

Definition as_member (m : Text * Value) : option (string * string) :=
  match m with
  | (Some k, JString (Some v)) => Some (k, v)
  | _ => None
  end.

(** A parsed object is described by a record when its properties are
    strings and exactly those of the record, in the order in which the
    extension creates them: then the methods read the same from both and
    [JSON.stringify] writes the same for both.  Any other value is a
    JavaScript value that no [ReferenceItem] of this embedding stands
    for. *)
Definition as_record (v : Value) : option ReferenceItem :=
  match v with
  | JObject ms => mapM as_member ms ≫= decode
  | _ => None
  end.

(** A parsed value at the declared type [ReferenceItem[]]. *)
Definition as_references (v : Value) : option (list ReferenceItem) :=
  match v with
  | JArray vs => mapM as_record vs
  | _ => None
  end.

(** The collection that a text is the JSON text of. *)
Definition parse (data : string) : option (list ReferenceItem) :=
  value_of_text data ≫= as_references.

End Json.

(** ** [class ReferenceDataManager] *)

Module Store.

(** The identity of a record object.  [this.references] holds object
    references, so one object may sit at several indices and a write to it
    shows at each of them. *)
Definition loc : Type := positive.

(** What the host answers: the system clock at each reading, the rendering
    [Date.prototype.toISOString], and [Math.random().toString(36)] at each
    draw. *)
Record Host := {
  clock : nat → Z;
  toISOString : Z → string;
  random36 : nat → string
}.

Record State := {
  references : list loc;               (* this.references *)
  storagePath : string;                (* this.storagePath *)
  heap : gmap loc ReferenceItem;       (* the record objects *)
  files : gmap string string;          (* file system: path to content *)
  denied : gset string;                (* paths whose read or write fails *)
  console : list (string * Error);     (* console.error *)
  host : Host;
  ticks : nat;                         (* clock readings so far *)
  draws : nat                          (* random draws so far *)
}.

Definition set_references (f : list loc → list loc) (σ : State) : State :=
  {| references := f (references σ); storagePath := storagePath σ;
     heap := heap σ; files := files σ; denied := denied σ;
     console := console σ; host := host σ; ticks := ticks σ;
     draws := draws σ |}.

Definition set_storagePath (p : string) (σ : State) : State :=
  {| references := references σ; storagePath := p;
     heap := heap σ; files := files σ; denied := denied σ;
     console := console σ; host := host σ; ticks := ticks σ;
     draws := draws σ |}.

Definition set_heap (f : gmap loc ReferenceItem → gmap loc ReferenceItem)
    (σ : State) : State :=
  {| references := references σ; storagePath := storagePath σ;
     heap := f (heap σ); files := files σ; denied := denied σ;
     console := console σ; host := host σ; ticks := ticks σ;
     draws := draws σ |}.

Definition set_files (f : gmap string string → gmap string string)
    (σ : State) : State :=
  {| references := references σ; storagePath := storagePath σ;
     heap := heap σ; files := f (files σ); denied := denied σ;
     console := console σ; host := host σ; ticks := ticks σ;
     draws := draws σ |}.

Definition set_console (f : list (string * Error) → list (string * Error))
    (σ : State) : State :=
  {| references := references σ; storagePath := storagePath σ;
     heap := heap σ; files := files σ; denied := denied σ;
     console := f (console σ); host := host σ; ticks := ticks σ;
     draws := draws σ |}.

Definition set_ticks (f : nat → nat) (σ : State) : State :=
  {| references := references σ; storagePath := storagePath σ;
     heap := heap σ; files := files σ; denied := denied σ;
     console := console σ; host := host σ; ticks := f (ticks σ);
     draws := draws σ |}.

Definition set_draws (f : nat → nat) (σ : State) : State :=
  {| references := references σ; storagePath := storagePath σ;
     heap := heap σ; files := files σ; denied := denied σ;
     console := console σ; host := host σ; ticks := ticks σ;
     draws := f (draws σ) |}.

(** The record an array entry points to. *)
Definition deref (σ : State) (l : loc) : ReferenceItem := heap σ !!! l.

(** The collection as a sequence of record values: what [getReferences]
    shows and what [JSON.stringify] serializes. *)
Definition view (σ : State) : list ReferenceItem := deref σ <$> references σ.

(** *** The host: objects, console, clock, random source, file system *)

(** A new object. *)
Definition alloc (r : ReferenceItem) : M State loc :=
  λ σ, let l := fresh (dom (heap σ)) in (Ok l, set_heap (insert l r) σ).

Fixpoint alloc_all (rs : list ReferenceItem) : M State (list loc) :=
  match rs with
  | [] => ret []
  | r :: rs' => l <- alloc r;; ls <- alloc_all rs';; ret (l :: ls)
  end.

Definition console_error (msg : string) (e : Error) : M State unit :=
  modify (set_console (λ c, JS.push c (msg, e))).

(** [new Date().toISOString()]. *)
Definition new_Date_toISOString : M State string :=
  λ σ, (Ok (toISOString (host σ) (clock (host σ) (ticks σ))), set_ticks S σ).

(** [Date.now()]. *)
Definition Date_now : M State Z :=
  λ σ, (Ok (clock (host σ) (ticks σ)), set_ticks S σ).

(** [Math.random().toString(36)]. *)
Definition Math_random_toString36 : M State string :=
  λ σ, (Ok (random36 (host σ) (draws σ)), set_draws S σ).

Definition existsSync (p : string) : M State bool :=
  gets (λ σ, bool_decide (is_Some (files σ !! p))).

Definition readFileSync (p : string) : M State string :=
  λ σ, if decide (p ∈ denied σ) then (Throw (EACCES p), σ)
       else match files σ !! p with
            | Some data => (Ok data, σ)
            | None => (Throw (ENOENT p), σ)
            end.

Definition writeFileSync (p data : string) : M State unit :=
  λ σ, if decide (p ∈ denied σ) then (Throw (EACCES p), σ)
       else (Ok tt, set_files (insert p data) σ).

(** [fs.mkdirSync(dir, { recursive: true })]; directories are not tracked,
    only whether the call fails. *)
Definition mkdirSync (dir : string) : M State unit :=
  λ σ, if decide (dir ∈ denied σ) then (Throw (EACCES dir), σ) else (Ok tt, σ).

(** [JSON.parse(data)], assigned to [this.references]: a [SyntaxError]
    for a text that is not JSON; new objects for the JSON text of a
    collection; for any other JSON text the value is not a
    [ReferenceItem[]] and the assignment goes unchecked. *)
Definition JSON_parse (data : string) : M State (list loc) :=
  match Json.value_of_text data with
  | None => throw SyntaxError
  | Some v =>
    match Json.as_references v with
    | Some items => alloc_all items
    | None => untyped
    end
  end.

(** [JSON.stringify(this.references, null, 2)]. *)
Definition JSON_stringify : M State string :=
  gets (λ σ, Json.stringify (view σ)).

(** *** The methods *)

Definition loadReferences : M State unit :=
  try_catch
    (path <- gets storagePath;;
     present <- existsSync path;;
     if present : bool then
       data <- readFileSync path;;
       parsed <- JSON_parse data;;
       modify (set_references (λ _, parsed))
     else ret tt)
    (λ error,
       do console_error "Failed to load references:" error;;
       modify (set_references (λ _, []))).

Definition saveReferences : M State unit :=
  try_catch
    (path <- gets storagePath;;
     text <- JSON_stringify;;
     writeFileSync path text)
    (λ error, console_error "Failed to save references:" error).

(** [path.join(dir, name)] for a directory path without a trailing
    separator. *)
Definition path_join (dir name : string) : string := dir +:+ "/" +:+ name.

(** The constructor; [references] starts as the empty array of the field
    initializer. *)
Definition constructor (globalStoragePath : string) : M State unit :=
  do modify (set_references (λ _, []));;
  do modify (set_storagePath (path_join globalStoragePath "references.json"));;
  do mkdirSync globalStoragePath;;
  loadReferences.

Definition addReference (reference : NewReference) : M State loc :=
  now <- new_Date_toISOString;;
  ms <- Date_now;;
  rnd <- Math_random_toString36;;
  newReference <- alloc
    {| type := new_type reference;
       title := new_title reference;
       filePath := new_filePath reference;
       snippet := new_snippet reference;
       id := "ref-" +:+ pretty ms +:+ "-" +:+ JS.substr rnd 2 9;
       createdAt := now;
       updatedAt := now |};;
  do modify (set_references (λ refs, JS.push refs newReference));;
  do saveReferences;;
  ret newReference.

Definition getReferences : M State (list loc) := gets references.

Definition updateOrder (newOrder : list string) : M State unit :=
  σ <- gets (λ σ, σ);;
  let newReferences :=
    JS.forEach newOrder
      (λ acc i,
         match JS.find (λ r, String.eqb (id (deref σ r)) i) (references σ) with
         | Some ref => JS.push acc ref
         | None => acc
         end) [] in
  let newReferences :=
    JS.forEach (references σ)
      (λ acc ref,
         if negb (JS.includes newOrder (id (deref σ ref)))
         then JS.push acc ref else acc) newReferences in
  do modify (set_references (λ _, newReferences));;
  saveReferences.

Definition deleteReference (i : string) : M State unit :=
  σ <- gets (λ σ, σ);;
  do modify (set_references
            (λ refs, JS.filter (λ r, negb (String.eqb (id (deref σ r)) i)) refs));;
  saveReferences.

Definition with_title (t : string) (r : ReferenceItem) : ReferenceItem :=
  {| id := id r; type := type r; title := t; filePath := filePath r;
     snippet := snippet r; createdAt := createdAt r; updatedAt := updatedAt r |}.

Definition with_updatedAt (u : string) (r : ReferenceItem) : ReferenceItem :=
  {| id := id r; type := type r; title := title r; filePath := filePath r;
     snippet := snippet r; createdAt := createdAt r; updatedAt := u |}.

Definition updateReferenceTitle (i t : string) : M State unit :=
  reference <- gets (λ σ, JS.find (λ r, String.eqb (id (deref σ r)) i) (references σ));;
  match reference with
  | Some ref =>
    do modify (set_heap (λ h, <[ref := with_title t (h !!! ref)]> h));;
    now <- new_Date_toISOString;;
    do modify (set_heap (λ h, <[ref := with_updatedAt now (h !!! ref)]> h));;
    saveReferences
  | None => ret tt
  end.

(** A request to the manager, and a sequence of requests. *)
Inductive Op :=
| Add (reference : NewReference)
| Delete (i : string)
| Rename (i t : string)
| Reorder (newOrder : list string).

Definition run_op (op : Op) : M State unit :=
  match op with
  | Add reference => do addReference reference;; ret tt
  | Delete i => deleteReference i
  | Rename i t => updateReferenceTitle i t
  | Reorder newOrder => updateOrder newOrder
  end.

Fixpoint run_ops (ops : list Op) : M State unit :=
  match ops with
  | [] => ret tt
  | op :: ops' => do run_op op;; run_ops ops'
  end.

End Store.

(** ** The scan of [jumpToGlobalSnippet] *)

Module Locator.

(** A workspace file, by its path. *)
Definition Uri : Type := string.

Record Position := { line : Z; character : Z }.

(** [vscode.TextDocument]: [getText()] and [positionAt(offset)]. *)
Record TextDocument := {
  getText : string;
  positionAt : Z → Position
}.

Record State := {
  workspaceFiles : list Uri;               (* what findFiles returns *)
  workspace : Uri → option TextDocument;   (* [None]: the file cannot be opened *)
  opened : list Uri;                       (* calls of openTextDocument so far *)
  console : list (string * Uri * Error)    (* console.error *)
}.

(** [vscode.workspace.findFiles('**/*', '**/node_modules/**', 10000)]. *)
Definition findFiles : M State (list Uri) := gets workspaceFiles.

(** [vscode.workspace.openTextDocument(file)]. *)
Definition openTextDocument (file : Uri) : M State TextDocument :=
  λ σ, let σ' := {| workspaceFiles := workspaceFiles σ; workspace := workspace σ;
                    opened := JS.push (opened σ) file; console := console σ |} in
       match workspace σ file with
       | Some doc => (Ok doc, σ')
       | None => (Throw (OpenFailed file), σ')
       end.

Definition console_error (msg : string) (file : Uri) (e : Error) : M State unit :=
  modify (λ σ, {| workspaceFiles := workspaceFiles σ; workspace := workspace σ;
                  opened := opened σ;
                  console := JS.push (console σ) (msg, file, e) |}).

(** The variables the loop updates. *)
Record Vars := {
  matchCount : Z;
  matchFile : option Uri;
  matchStartPosition : option Position;
  matchEndPosition : option Position
}.

Definition initial : Vars :=
  {| matchCount := 0; matchFile := None; matchStartPosition := None;
     matchEndPosition := None |}.

(** One iteration of [for (const file of files)]; the boolean tells
    whether the iteration ended in [break]. *)
Definition iteration (snippet : string) (file : Uri) (v : Vars) : M State (Vars * bool) :=
  try_catch
    (doc <- openTextDocument file;;
     let text := getText doc in
     let index := JS.indexOf text snippet in
     if negb (index =? -1) then
       let v' := {| matchCount := matchCount v + 1;
                    matchFile := Some file;
                    matchStartPosition := Some (positionAt doc index);
                    matchEndPosition := Some (positionAt doc (index + JS.length snippet)) |} in
       if matchCount v' >? 1 then ret (v', true) else ret (v', false)
     else ret (v, false))
    (λ error,
       do console_error "无法打开文件:" file error;;
       ret (v, false)).

Fixpoint scan (snippet : string) (files : list Uri) (v : Vars) : M State Vars :=
  match files with
  | [] => ret v
  | file :: rest =>
    r <- iteration snippet file v;;
    if r.2 : bool then ret r.1 else scan snippet rest r.1
  end.

(** The branch taken after the loop: reveal the single match, warn that
    nothing was found, or warn that the snippet is no longer unique. *)
Inductive Outcome :=
| UniqueMatch (file : Uri) (startPosition endPosition : Position)
| NoMatch
| AmbiguousMatch.

Definition classify (v : Vars) : Outcome :=
  match matchCount v =? 1, matchFile v, matchStartPosition v, matchEndPosition v with
  | true, Some file, Some startPosition, Some endPosition =>
    UniqueMatch file startPosition endPosition
  | _, _, _, _ => if matchCount v =? 0 then NoMatch else AmbiguousMatch
  end.

(** [jumpToGlobalSnippet]: the search for the files, the loop and the
    branch.  The editor calls inside the branches, and the handler around
    the whole body that reports a failure of those calls, are left out. *)
Definition jumpToGlobalSnippet (snippet : string) : M State Outcome :=
  files <- findFiles;;
  v <- scan snippet files initial;;
  ret (classify v).

End Locator.

(** ** The command [file-ref-tags.addGlobalUniqueSnippet] *)

Module Commands.

(** The active editor: the path of its document, whether the selection is
    empty, and [document.getText(selection)]. *)
Record Editor := {
  fsPath : string;
  selectionIsEmpty : bool;
  selectedText : string
}.

Inductive Notice :=
| ErrorMessage (msg : string)          (* vscode.window.showErrorMessage *)
| InformationMessage (msg : string).   (* vscode.window.showInformationMessage *)

Record State := {
  dataManager : Store.State;
  workspaceState : Locator.State;
  activeTextEditor : option Editor;      (* vscode.window.activeTextEditor *)
  webviewView : bool;                    (* this._webviewView is set *)
  posted : list (list ReferenceItem);    (* 'updateReferences' messages to the webview *)
  notices : list Notice;
  console : list (string * Error)        (* console.error *)
}.

(** Running a computation of the manager, or of the workspace, inside the
    extension. *)
Definition onManager {A} (m : M Store.State A) : M State A :=
  λ σ, let r := m (dataManager σ) in
       (r.1, {| dataManager := r.2; workspaceState := workspaceState σ;
                activeTextEditor := activeTextEditor σ; webviewView := webviewView σ;
                posted := posted σ; notices := notices σ; console := console σ |}).

Definition onWorkspace {A} (m : M Locator.State A) : M State A :=
  λ σ, let r := m (workspaceState σ) in
       (r.1, {| dataManager := dataManager σ; workspaceState := r.2;
                activeTextEditor := activeTextEditor σ; webviewView := webviewView σ;
                posted := posted σ; notices := notices σ; console := console σ |}).

Definition notify (n : Notice) : M State unit :=
  modify (λ σ, {| dataManager := dataManager σ; workspaceState := workspaceState σ;
                  activeTextEditor := activeTextEditor σ; webviewView := webviewView σ;
                  posted := posted σ; notices := JS.push (notices σ) n;
                  console := console σ |}).

Definition showErrorMessage (msg : string) : M State unit := notify (ErrorMessage msg).

Definition showInformationMessage (msg : string) : M State unit :=
  notify (InformationMessage msg).

Definition console_error (msg : string) (e : Error) : M State unit :=
  modify (λ σ, {| dataManager := dataManager σ; workspaceState := workspaceState σ;
                  activeTextEditor := activeTextEditor σ; webviewView := webviewView σ;
                  posted := posted σ; notices := notices σ;
                  console := JS.push (console σ) (msg, e) |}).

(** [FileRefTagsViewProvider._sendReferences]: the message carries the
    records of [getReferences()] by value. *)
Definition _sendReferences : M State unit :=
  modify (λ σ, if webviewView σ
               then {| dataManager := dataManager σ; workspaceState := workspaceState σ;
                       activeTextEditor := activeTextEditor σ;
                       webviewView := webviewView σ;
                       posted := JS.push (posted σ) (Store.view (dataManager σ));
                       notices := notices σ; console := console σ |}
               else σ).

Definition notifyUpdate : M State unit := _sendReferences.

(** [snippet.substring(0, 50) + (snippet.length > 50 ? '...' : '')]. *)
Definition snippetPreview (snippet : string) : string :=
  JS.substring snippet 0 50 +:+ (if JS.length snippet >? 50 then "..." else "").

(** One iteration of the loop of the command, on [matchCount] and
    [matchFile]; the boolean tells whether it ended in [break]. *)
Definition iteration (snippet : string) (file : Locator.Uri) (c : Z * option Locator.Uri) :
    M Locator.State (Z * option Locator.Uri * bool) :=
  try_catch
    (doc <- Locator.openTextDocument file;;
     let text := Locator.getText doc in
     if JS.str_includes text snippet then
       let c' := (c.1 + 1, Some file) in
       if c'.1 >? 1 then ret (c', true) else ret (c', false)
     else ret (c, false))
    (λ error,
       do Locator.console_error "无法打开文件:" file error;;
       ret (c, false)).

Fixpoint scan (snippet : string) (files : list Locator.Uri) (c : Z * option Locator.Uri) :
    M Locator.State (Z * option Locator.Uri) :=
  match files with
  | [] => ret c
  | file :: rest =>
    r <- iteration snippet file c;;
    if r.2 : bool then ret r.1 else scan snippet rest r.1
  end.

Definition addGlobalUniqueSnippet : M State unit :=
  editor <- gets activeTextEditor;;
  match editor with
  | None => showErrorMessage "没有打开的文件"
  | Some editor =>
    if selectionIsEmpty editor then showErrorMessage "请先选中代码片段"
    else
      let snippet := selectedText editor in
      try_catch
        (files <- onWorkspace Locator.findFiles;;
         r <- onWorkspace (scan snippet files (0, None));;
         if negb (r.1 =? 1) then showErrorMessage "选中的代码片段不是全局唯一的"
         else
           let title := snippetPreview snippet in
           do onManager (Store.addReference
                {| new_type := TGlobalSnippet; new_title := title;
                   new_filePath := None; new_snippet := Some snippet |});;
           do notifyUpdate;;
           showInformationMessage "已添加当前选中的全局唯一片段到面板")
        (λ error,
           do console_error "搜索代码片段失败:" error;;
           showErrorMessage "搜索代码片段失败")
  end.

End Commands.

(** ** [jumpToFile] and [jumpToFileAndSnippet] *)

Module Navigate.

Inductive Event :=
| Shown (uri : Locator.Uri) (selection : option (Locator.Position * Locator.Position))
                                                (* showTextDocument has opened the file *)
| Revealed (uri : Locator.Uri) (range : Locator.Position * Locator.Position)
                                                (* textEditor.revealRange *)
| ErrorMessage (msg : string)
| WarningMessage (msg : string)
| InformationMessage (msg : string)
| ErrorReport (msg : string) (e : Error)        (* showErrorMessage with the error's message *)
| ConsoleError (msg : string) (e : Error).

Record State := {
  isAbsolute : string → bool;                   (* path.isAbsolute *)
  basename : string → string;                   (* path.basename *)
  workspaceFolders : option (list string);      (* vscode.workspace.workspaceFolders *)
  found : string → list Locator.Uri;            (* findFiles(pattern, '**/node_modules/**') *)
  documents : Locator.Uri → option Locator.TextDocument;
                                                (* [None]: the file cannot be opened *)
  events : list Event
}.

Definition emit (e : Event) : M State unit :=
  modify (λ σ, {| isAbsolute := isAbsolute σ; basename := basename σ;
                  workspaceFolders := workspaceFolders σ; found := found σ;
                  documents := documents σ; events := JS.push (events σ) e |}).

Definition findFiles (pattern : string) : M State (list Locator.Uri) :=
  gets (λ σ, found σ pattern).

Definition openTextDocument (uri : Locator.Uri) : M State Locator.TextDocument :=
  λ σ, match documents σ uri with
       | Some doc => (Ok doc, σ)
       | None => (Throw (OpenFailed uri), σ)
       end.

(** [vscode.window.showTextDocument(uri, { selection })]; the result is
    the document of the editor. *)
Definition showTextDocument (uri : Locator.Uri)
    (selection : option (Locator.Position * Locator.Position)) :
    M State Locator.TextDocument :=
  doc <- openTextDocument uri;;
  do emit (Shown uri selection);;
  ret doc.

(** [for (const folder of workspaceFolders) { matches.push(...files) }]:
    the pattern does not mention the folder. *)
Fixpoint gather (filePath : string) (folders : list string) (matches : list Locator.Uri) :
    M State (list Locator.Uri) :=
  match folders with
  | [] => ret matches
  | _ :: rest =>
    files <- findFiles ("**/" +:+ filePath);;
    gather filePath rest (matches ++ files)
  end.

(** The body up to the choice of [fileUri]; [None] stands for [return]. *)
Definition jumpToFile_resolve (filePath : string) : M State (option Locator.Uri) :=
  absolute <- gets (λ σ, isAbsolute σ filePath);;
  if absolute : bool then ret (Some filePath)
  else
    workspaceFolders <- gets workspaceFolders;;
    match workspaceFolders with
    | None | Some [] =>
      do emit (ErrorMessage "未打开工作区，无法使用相对路径或仅文件名");;
      ret None
    | Some folders =>
      matches <- gather filePath folders [];;
      match matches with
      | [] =>
        do emit (ErrorMessage ("未找到文件：" +:+ filePath));;
        ret None
      | first :: _ =>
        do (if Z.of_nat (length matches) >? 1
            then emit (WarningMessage ("找到多个匹配文件，将打开第一个：" +:+ filePath))
            else ret tt);;
        ret (Some first)
      end
    end.

Definition jumpToFile (filePath : string) : M State unit :=
  try_catch
    (fileUri <- jumpToFile_resolve filePath;;
     match fileUri with
     | Some fileUri => do showTextDocument fileUri None;; ret tt
     | None => ret tt
     end)
    (λ error,
       do emit (ConsoleError "Failed to jump to file:" error);;
       emit (ErrorReport "跳转到文件失败：" error)).

(** The loop over the candidates: the first one that opens and contains
    the snippet. *)
Fixpoint pick (snippet : string) (matches : list Locator.Uri) : M State (option Locator.Uri) :=
  match matches with
  | [] => ret None
  | candidate :: rest =>
    r <- try_catch
           (doc <- openTextDocument candidate;;
            let text := Locator.getText doc in
            if JS.str_includes text snippet then ret (Some candidate) else ret None)
           (λ error,
              do emit (ConsoleError ("无法打开文件：" +:+ candidate) error);;
              ret None);;
    match r with
    | Some target => ret (Some target)
    | None => pick snippet rest
    end
  end.

Definition jumpToFileAndSnippet_resolve (filePath snippet : string) :
    M State (option Locator.Uri) :=
  absolute <- gets (λ σ, isAbsolute σ filePath);;
  if absolute : bool then ret (Some filePath)
  else
    workspaceFolders <- gets workspaceFolders;;
    match workspaceFolders with
    | None | Some [] =>
      do emit (ErrorMessage "未打开工作区，无法使用相对路径或仅文件名");;
      ret None
    | Some folders =>
      matches <- gather filePath folders [];;
      match matches with
      | [] =>
        do emit (ErrorMessage ("未找到文件：" +:+ filePath));;
        ret None
      | [only] => ret (Some only)
      | _ :: _ :: _ =>
        do emit (InformationMessage
                   ("找到" +:+ pretty (Z.of_nat (length matches))
                    +:+ "个匹配文件，正在结合代码片段筛选..."));;
        targetFileUri <- pick snippet matches;;
        match targetFileUri with
        | None =>
          do emit (ErrorMessage
                     ("找到" +:+ pretty (Z.of_nat (length matches))
                      +:+ "个匹配文件，但没有包含指定代码片段的文件：" +:+ filePath));;
          ret None
        | Some target =>
          name <- gets (λ σ, basename σ target);;
          do emit (InformationMessage ("已筛选出包含代码片段的文件：" +:+ name));;
          ret (Some target)
        end
      end
    end.

Definition jumpToFileAndSnippet (filePath snippet : string) : M State unit :=
  try_catch
    (fileUri <- jumpToFileAndSnippet_resolve filePath snippet;;
     match fileUri with
     | None => ret tt
     | Some fileUri =>
       doc <- showTextDocument fileUri None;;
       let text := Locator.getText doc in
       let index := JS.indexOf text snippet in
       if negb (index =? -1) then
         let startPosition := Locator.positionAt doc index in
         let endPosition := Locator.positionAt doc (index + JS.length snippet) in
         let range := (startPosition, endPosition) in
         do showTextDocument fileUri (Some range);;
         emit (Revealed fileUri range)
       else emit (WarningMessage ("文件中未找到指定代码片段：" +:+ fileUri))
     end)
    (λ error,
       do emit (ConsoleError "Failed to jump to file and snippet:" error);;
       emit (ErrorReport "跳转到文件并搜索代码片段失败：" error)).

End Navigate.

(** * Vocabulary of the statements *)

Import Store.

(** The value that [JSON.parse] makes of the text of an object of
    strings. *)
Definition member_value (kv : string * string) : Json.Text * Json.Value :=
  (Some kv.1, Json.JString (Some kv.2)).

Definition object_value (o : Json.Obj) : Json.Value :=
  Json.JObject (member_value <$> o).

(** The state after [saveReferences]: the file holds the JSON text of the
    collection, or the failure is on the console. *)
Definition saved (σ : State) : State :=
  if decide (storagePath σ ∈ denied σ)
  then set_console (λ c, JS.push c ("Failed to save references:", EACCES (storagePath σ))) σ
  else set_files (insert (storagePath σ) (Json.stringify (view σ))) σ.

(** The ids of the collection, in order. *)
Definition ids (σ : State) : list string := id <$> view σ.

(** [this.references.find(r => r.id === i)]. *)
Definition find_by_id (σ : State) (i : string) : option loc :=
  JS.find (λ r, String.eqb (id (deref σ r)) i) (references σ).

(** No two distinct records of the collection share an id. *)
Definition ids_identify (σ : State) : Prop :=
  ∀ l1 l2, l1 ∈ references σ → l2 ∈ references σ →
           id (deref σ l1) = id (deref σ l2) → l1 = l2.

#[global] Instance ids_identify_dec σ : Decision (ids_identify σ).
Proof.
  refine (cast_if (decide (Forall (λ l1, Forall (λ l2,
            id (deref σ l1) = id (deref σ l2) → l1 = l2) (references σ))
            (references σ))));
    unfold ids_identify.
  - intros l1 l2 H1 H2.
    match goal with
    | H : Forall _ _ |- _ =>
      exact (proj1 (Forall_forall _ _) (proj1 (Forall_forall _ _) H l1 H1) l2 H2)
    end.
  - intros H.
    match goal with
    | Hn : ¬ Forall _ _ |- _ => apply Hn
    end.
    apply Forall_forall; intros l1 H1; apply Forall_forall; intros l2 H2.
    by apply H.
Defined.

(** Every entry of the array points to an object. *)
Definition allocated (σ : State) : Prop :=
  Forall (λ l, is_Some (heap σ !! l)) (references σ).

(** A manager that has not loaded anything yet, on a given file system. *)
Definition fresh_manager (path : string) (fs : gmap string string)
    (locked : gset string) (h : Host) : State :=
  {| references := []; storagePath := path; heap := ∅; files := fs;
     denied := locked; console := []; host := h; ticks := 0; draws := 0 |}.

(** Sample data. *)
Module Demo.

Definition host : Host :=
  {| clock := λ n, 1700000000000 + Z.of_nat n;
     toISOString := λ ms, "T" +:+ pretty ms;
     random36 := λ n, "0.k3x9q2m7p1zz" +:+ pretty n |}.

Definition item (i t : string) : ReferenceItem :=
  {| id := i; type := TFile; title := t; filePath := Some "/a/b.ts";
     snippet := None; createdAt := "T0"; updatedAt := "T0" |}.

Definition path : string := "/storage/references.json".

(** A store loaded from a file with the records A, B, C. *)
Definition abc : State :=
  (loadReferences
     (fresh_manager path
        {[ path := Json.stringify [item "A" "a"; item "B" "b"; item "C" "c"] ]}
        ∅ host)).2.

(** A store loaded from a file in which two records carry the id A. *)
Definition twins : State :=
  (loadReferences
     (fresh_manager path
        {[ path := Json.stringify [item "A" "first"; item "A" "second"; item "B" "b"] ]}
        ∅ host)).2.

(** A store started on a file that is not JSON. *)
Definition corrupt : State :=
  (loadReferences (fresh_manager path {[ path := "not json" ]} ∅ host)).2.

(** The three records in memory, over a file that is not JSON. *)
Definition abc_on_corrupt_file : State :=
  {| references := references abc; storagePath := path; heap := heap abc;
     files := {[ path := "not json" ]}; denied := ∅; console := [];
     Store.host := host; ticks := 0; draws := 0 |}.

End Demo.

(** Vocabulary of the statements about the scan. *)
Module ScanSpec.
Import Locator.

(** [fragment] is the part of [text] that starts at offset [n]. *)
Definition occurs_at (fragment text : string) (n : nat) : Prop :=
  String.substring n (String.length fragment) text = fragment.

(** [fragment] is a contiguous part of [text]. *)
Definition contains (text fragment : string) : Prop :=
  ∃ n, (n ≤ String.length text)%nat ∧ occurs_at fragment text n.

(** [n] is the offset of the first occurrence of [fragment] in [text]. *)
Definition first_occurrence (fragment text : string) (n : nat) : Prop :=
  occurs_at fragment text n ∧ ∀ m, (m < n)%nat → ¬ occurs_at fragment text m.

#[global] Instance occurs_at_dec fragment text n : Decision (occurs_at fragment text n).
Proof. unfold occurs_at. apply _. Defined.

#[global] Instance contains_dec text fragment : Decision (contains text fragment).
Proof.
  refine (cast_if (decide (Exists (occurs_at fragment text)
                             (seq 0 (S (String.length text))))));
    unfold contains.
  - match goal with
    | H : Exists _ _ |- _ => apply Exists_exists in H as (k & Hk & Ho)
    end.
    apply elem_of_seq in Hk. exists k. split; [lia|done].
  - intros (k & Hk & Ho).
    match goal with
    | H : ¬ Exists _ _ |- _ => apply H
    end.
    apply Exists_exists. exists k. split; [|done]. apply elem_of_seq. lia.
Defined.

(** The member [file] can be opened and its text contains the fragment. *)
Definition holds (σ : State) (fragment : string) (file : Uri) : Prop :=
  match workspace σ file with
  | Some doc => contains (getText doc) fragment
  | None => False
  end.

#[global] Instance holds_dec σ fragment file : Decision (holds σ fragment file).
Proof. unfold holds. destruct (workspace σ file); apply _. Defined.

(** The same workspace with another answer of [findFiles]. *)
Definition with_files (files : list Uri) (σ : State) : State :=
  {| workspaceFiles := files; workspace := workspace σ; opened := opened σ;
     console := console σ |}.

(** The console entry for a member that could not be opened. *)
Definition log_entry (file : Uri) : string * Uri * Error :=
  ("无法打开文件:", file, OpenFailed file).

(** The state after the members [scanned] were opened, in this order. *)
Definition after (σ : State) (scanned : list Uri) : State :=
  {| workspaceFiles := workspaceFiles σ;
     workspace := workspace σ;
     opened := opened σ ++ scanned;
     console := console σ ++ (log_entry <$> filter (λ f, workspace σ f = None) scanned) |}.

(** The variables after a match in [file]. *)
Definition hit (fragment : string) (doc : TextDocument) (file : Uri) (v : Vars) : Vars :=
  {| matchCount := matchCount v + 1;
     matchFile := Some file;
     matchStartPosition := Some (positionAt doc (JS.indexOf (getText doc) fragment));
     matchEndPosition :=
       Some (positionAt doc (JS.indexOf (getText doc) fragment + JS.length fragment)) |}.

(** The branch [jumpToGlobalSnippet] takes, from the members that hold the
    fragment. *)
Definition expected (σ : State) (fragment : string) (ms : list Uri) : Outcome :=
  match ms with
  | [] => NoMatch
  | [file] =>
    match workspace σ file with
    | Some doc => classify (hit fragment doc file initial)
    | None => NoMatch
    end
  | _ :: _ :: _ => AmbiguousMatch
  end.

(** Sample workspace: three files with the fragment and one without; no
    other file can be opened. *)
Definition document (text : string) : TextDocument :=
  {| getText := text; positionAt := λ offset, {| line := 0; character := offset |} |}.

Definition sample (files : list Uri) : State :=
  {| workspaceFiles := files;
     workspace := λ file,
       if String.eqb file "a.ts" then Some (document "let x = foo();")
       else if String.eqb file "b.ts" then Some (document "foo(); foo();")
       else if String.eqb file "c.ts" then Some (document "return foo()")
       else if String.eqb file "d.ts" then Some (document "bar()")
       else None;
     opened := [];
     console := [] |}.

End ScanSpec.

(** ** The store in memory and in the file *)

(** The record [addReference] creates in the state [σ]. *)
Definition new_record (reference : NewReference) (σ : State) : ReferenceItem :=
  {| type := new_type reference;
     title := new_title reference;
     filePath := new_filePath reference;
     snippet := new_snippet reference;
     id := "ref-" +:+ pretty (clock (host σ) (S (ticks σ))) +:+ "-"
           +:+ JS.substr (random36 (host σ) (draws σ)) 2 9;
     createdAt := toISOString (host σ) (clock (host σ) (ticks σ));
     updatedAt := toISOString (host σ) (clock (host σ) (ticks σ)) |}.

(** What the manager holds in memory, and what the host will answer next. *)
Definition memory (σ : State) : list loc * gmap loc ReferenceItem * Host * nat * nat :=
  (references σ, heap σ, host σ, ticks σ, draws σ).


(** The number of calls of [saveReferences] in a sequence of requests made
    from the state [σ]: one for each request, except for a rename of an id
    that no record has at that moment. *)
Fixpoint saves (ops : list Op) (σ : State) : nat :=
  match ops with
  | [] => 0
  | op :: ops' =>
    ((match op with
      | Rename i _ => if decide (i ∈ ids σ) then 1 else 0
      | _ => 1
      end) + saves ops' (run_op op σ).2)%nat
  end.

(** The store A, B, C with a backing file that cannot be written. *)
Definition readonly_abc : State :=
  {| references := references Demo.abc; storagePath := storagePath Demo.abc;
     heap := heap Demo.abc; files := files Demo.abc;
     denied := {[ Demo.path ]}; console := []; host := host Demo.abc;
     ticks := 0; draws := 0 |}.

(** ** The command that adds a global snippet *)

Module CommandSpec.
Import Commands ScanSpec.

(** The argument the command passes to [addReference]. *)
Definition global_snippet_reference (snippet : string) : NewReference :=
  {| new_type := TGlobalSnippet; new_title := snippetPreview snippet;
     new_filePath := None; new_snippet := Some snippet |}.

(** The number of workspace files that hold the fragment. *)
Definition holders (σ : State) (snippet : string) : nat :=
  length (filter (holds (workspaceState σ) snippet)
            (Locator.workspaceFiles (workspaceState σ))).

(** An extension with an editor whose selection is [text], on the sample
    workspace with the files [files] and the store A, B, C. *)
Definition session (text : string) (files : list Locator.Uri) : State :=
  {| dataManager := Demo.abc; workspaceState := sample files;
     activeTextEditor :=
       Some {| fsPath := "a.ts"; selectionIsEmpty := bool_decide (text = "");
               selectedText := text |};
     webviewView := true; posted := []; notices := []; console := [] |}.

End CommandSpec.

(** ** The jumps to a file *)

Module NavigateSpec.
Import Navigate ScanSpec.

(** The candidate [uri] can be opened and its text contains the snippet. *)
Definition fits (σ : State) (snippet : string) (uri : Locator.Uri) : Prop :=
  match documents σ uri with
  | Some doc => contains (Locator.getText doc) snippet
  | None => False
  end.

#[global] Instance fits_dec σ snippet uri : Decision (fits σ snippet uri).
Proof. unfold fits. destruct (documents σ uri); apply _. Defined.

(** The candidates for a relative path: what [findFiles] returns for it,
    once for every workspace folder. *)
Definition candidates (σ : State) (filePath : string) (folders : list string) :
    list Locator.Uri :=
  concat (replicate (length folders) (found σ ("**/" +:+ filePath))).

(** The state with more events. *)
Definition with_events (added : list Event) (σ : State) : State :=
  {| isAbsolute := isAbsolute σ; basename := basename σ;
     workspaceFolders := workspaceFolders σ; found := found σ;
     documents := documents σ; events := events σ ++ added |}.

(** The files that [showTextDocument] opened, with the selections. *)
Definition shown (evs : list Event) :
    list (Locator.Uri * option (Locator.Position * Locator.Position)) :=
  omap (λ e, match e with Shown uri selection => Some (uri, selection) | _ => None end) evs.

(** The range of the first occurrence of the snippet in the document. *)
Definition selection (snippet : string) (doc : Locator.TextDocument) :
    Locator.Position * Locator.Position :=
  let index := JS.indexOf (Locator.getText doc) snippet in
  (Locator.positionAt doc index, Locator.positionAt doc (index + JS.length snippet)).

(** What [jumpToFileAndSnippet] does once it has chosen the file [uri],
    whose document is [doc]: it opens the file, then selects and reveals
    the first occurrence of the snippet, or warns that there is none. *)
Definition landing (snippet : string) (uri : Locator.Uri) (doc : Locator.TextDocument) :
    list Event :=
  Shown uri None
  :: (if decide (contains (Locator.getText doc) snippet)
      then [Shown uri (Some (selection snippet doc)); Revealed uri (selection snippet doc)]
      else [WarningMessage ("文件中未找到指定代码片段：" +:+ uri)]).

(** A workspace with [folders] in which [findFiles] returns [files] for
    the pattern of [util.ts], over the documents of the sample. *)
Definition site (folders : option (list string)) (files : list Locator.Uri) : State :=
  {| isAbsolute := λ p, String.prefix "/" p;
     basename := λ p, p;
     workspaceFolders := folders;
     found := λ pattern, if String.eqb pattern "**/util.ts" then files else [];
     documents := Locator.workspace (sample []);
     events := [] |}.

End NavigateSpec.

(** * Properties of the JSON text *)

Import Json.

(** [String.append] is never unfolded by [simpl]; these equations move a
    literal prefix out of an append. *)
Lemma app_String (c : ascii) (s t : string) : String c s +:+ t = String c (s +:+ t).
Proof. reflexivity. Qed.

Lemma app_empty (t : string) : "" +:+ t = t.
Proof. reflexivity. Qed.

Lemma append_assoc (a b c : string) : (a +:+ b) +:+ c = a +:+ (b +:+ c).
Proof. induction a as [|x a IH]; [done|]. rewrite !app_String. by f_equal. Qed.

Lemma length_append (a b : string) :
  String.length (a +:+ b) = (String.length a + String.length b)%nat.
Proof.
  induction a as [|x a IH]; [done|]. rewrite app_String.
  cbn [String.length]. by rewrite IH.
Qed.

Ltac text := repeat (rewrite append_assoc || rewrite app_String || rewrite app_empty).

Lemma parse_chars_escape_char (c : ascii) (t : string) :
  parse_chars (escape_char c +:+ t) = cons_res c (parse_chars t).
Proof.
  destruct c as [[] [] [] [] [] [] [] []]; reflexivity.
Qed.

Lemma parse_chars_escape (s rest : string) :
  parse_chars (escape s +:+ String DQUOTE rest) = Some (Some s, rest).
Proof.
  induction s as [|c s IH]; [done|].
  cbn [escape]. rewrite append_assoc, parse_chars_escape_char, IH. done.
Qed.

Lemma parse_string_quote (s rest : string) :
  parse_string (quote s +:+ rest) = Some (Some s, rest).
Proof.
  unfold quote. text. cbn [parse_string].
  change (N_of_ascii DQUOTE =? 34)%N with true. cbv iota.
  apply parse_chars_escape.
Qed.

Lemma skip_ws_quote (s rest : string) : skip_ws (quote s +:+ rest) = quote s +:+ rest.
Proof. reflexivity. Qed.

Lemma expect_here (c : ascii) (s : string) :
  is_ws c = false → expect c (String c s) = Some s.
Proof.
  intros Hc. unfold expect. cbn [skip_ws]. rewrite Hc.
  by rewrite Ascii.eqb_refl.
Qed.

Lemma skip_ws_sp (s : string) : skip_ws (String " " s) = skip_ws s.
Proof. reflexivity. Qed.

Lemma skip_ws_nl (s : string) : skip_ws (String NL s) = skip_ws s.
Proof. reflexivity. Qed.

Lemma skip_ws_keep (c : ascii) (s : string) :
  is_ws c = false → skip_ws (String c s) = String c s.
Proof. intros Hc. cbn [skip_ws]. by rewrite Hc. Qed.

Ltac ws := repeat (rewrite skip_ws_sp || rewrite skip_ws_nl || rewrite skip_ws_quote).

Lemma parse_value_sp (fuel : nat) (s : string) :
  parse_value fuel (String " " s) = parse_value fuel s.
Proof. by destruct fuel. Qed.

Lemma parse_value_nl (fuel : nat) (s : string) :
  parse_value fuel (String NL s) = parse_value fuel s.
Proof. by destruct fuel. Qed.

(** One step of each of the three functions. *)
Lemma parse_members_S (fuel : nat) (s : string) :
  parse_members (S fuel) s
  = ('(k, s1) ← parse_string (skip_ws s);
     s2 ← expect ":" s1;
     '(v, s3) ← parse_value fuel s2;
     match skip_ws s3 with
     | String d s4 =>
       if Ascii.eqb d "," then
         '(ms, s5) ← parse_members fuel s4; Some ((k, v) :: ms, s5)
       else if Ascii.eqb d "}" then Some ([(k, v)], s4)
       else None
     | EmptyString => None
     end).
Proof. reflexivity. Qed.

Lemma parse_elements_S (fuel : nat) (s : string) :
  parse_elements (S fuel) s
  = ('(v, s1) ← parse_value fuel s;
     match skip_ws s1 with
     | String d s2 =>
       if Ascii.eqb d "," then
         '(vs, s3) ← parse_elements fuel s2; Some (v :: vs, s3)
       else if Ascii.eqb d "]" then Some ([v], s2)
       else None
     | EmptyString => None
     end).
Proof. reflexivity. Qed.

Lemma parse_value_object_S (fuel : nat) (s : string) :
  parse_value (S fuel) (String "{" s)
  = match expect "}" s with
    | Some s2 => Some (JObject [], s2)
    | None => '(ms, s2) ← parse_members fuel s; Some (JObject ms, s2)
    end.
Proof. reflexivity. Qed.

Lemma parse_value_array_S (fuel : nat) (s : string) :
  parse_value (S fuel) (String "[" s)
  = match expect "]" s with
    | Some s2 => Some (JArray [], s2)
    | None => '(vs, s2) ← parse_elements fuel s; Some (JArray vs, s2)
    end.
Proof. reflexivity. Qed.

Lemma parse_value_quote (fuel : nat) (s rest : string) :
  (1 ≤ fuel)%nat →
  parse_value fuel (quote s +:+ rest) = Some (JString (Some s), rest).
Proof.
  intros Hfuel. destruct fuel as [|fuel]; [lia|].
  unfold quote. text. cbn [parse_value skip_ws].
  change (is_ws DQUOTE) with false. cbv iota.
  change (Ascii.eqb DQUOTE "{") with false.
  change (Ascii.eqb DQUOTE "[") with false.
  change (Ascii.eqb DQUOTE DQUOTE) with true. cbv iota.
  by rewrite parse_chars_escape.
Qed.

(** The members of a printed object, up to the text after its brace. *)
Lemma parse_members_print (kv : string * string) (kvs : Obj) (rest : string) (fuel : nat) :
  (length kvs + 2 ≤ fuel)%nat →
  parse_members fuel
    (String NL ("    " +:+ print_members (kv :: kvs) +:+ String NL ("  }" +:+ rest)))
  = Some (member_value <$> kv :: kvs, rest).
Proof.
  revert kv fuel. induction kvs as [|kv' kvs IH]; intros [k v] fuel Hfuel.
  - destruct fuel as [|fuel]; [simpl in Hfuel; lia|].
    rewrite parse_members_S.
    cbn [print_members]. unfold print_member. cbn [fst snd].
    text. ws. rewrite parse_string_quote. cbn [mbind option_bind].
    rewrite expect_here by done. cbn [mbind option_bind].
    rewrite parse_value_sp, parse_value_quote by (simpl in Hfuel; lia).
    cbn [mbind option_bind]. ws.
    rewrite skip_ws_keep by done. reflexivity.
  - destruct fuel as [|fuel]; [simpl in Hfuel; lia|].
    rewrite parse_members_S.
    change (print_members ((k, v) :: kv' :: kvs))
      with (print_member (k, v) +:+ String "," (String NL ("    " +:+ print_members (kv' :: kvs)))).
    unfold print_member. cbn [fst snd].
    text. ws. rewrite parse_string_quote. cbn [mbind option_bind].
    rewrite expect_here by done. cbn [mbind option_bind].
    rewrite parse_value_sp, parse_value_quote by (simpl in Hfuel; lia).
    cbn [mbind option_bind].
    rewrite skip_ws_keep by done.
    change (Ascii.eqb "," ",") with true. cbv iota.
    specialize (IH kv' fuel ltac:(simpl in Hfuel; simpl; lia)).
    revert IH. text. intros ->. reflexivity.
Qed.

Lemma print_members_length (kvs : Obj) :
  (length kvs ≤ S (String.length (print_members kvs)))%nat.
Proof.
  induction kvs as [|kv [|kv' kvs] IH]; [simpl; lia|simpl; lia|].
  change (print_members (kv :: kv' :: kvs))
    with (print_member kv +:+ String "," (String NL ("    " +:+ print_members (kv' :: kvs)))).
  rewrite length_append. cbn [String.length length] in *.
  rewrite length_append. cbn [String.length]. lia.
Qed.

Lemma print_object_head (o : Obj) : ∃ t, print_object o = String "{" t.
Proof. destruct o; eexists; reflexivity. Qed.

Lemma print_object_length (o : Obj) :
  (length o ≤ String.length (print_object o))%nat.
Proof.
  destruct o as [|kv kvs]; [simpl; lia|].
  change (print_object (kv :: kvs))
    with (String "{" (String NL ("    " +:+ print_members (kv :: kvs) +:+ String NL "  }"))).
  pose proof (print_members_length (kv :: kvs)) as Hl.
  cbn [String.length]. rewrite !length_append. lia.
Qed.

Lemma parse_value_object (o : Obj) (rest : string) (fuel : nat) :
  (length o + 2 ≤ fuel)%nat →
  parse_value fuel (print_object o +:+ rest) = Some (object_value o, rest).
Proof.
  intros Hfuel. destruct fuel as [|fuel]; [lia|].
  destruct o as [|kv kvs]; [reflexivity|].
  change (print_object (kv :: kvs))
    with (String "{" (String NL ("    " +:+ print_members (kv :: kvs) +:+ String NL "  }"))).
  text. rewrite parse_value_object_S.
  assert (expect "}" (String NL (String " " (String " " (String " " (String " "
            (print_members (kv :: kvs) +:+ String NL (String " " (String " " (String "}" rest)))))))))
          = None) as ->.
  { unfold expect. ws. destruct kvs as [|kv' kvs].
    - cbn [print_members]. unfold print_member. text. by rewrite skip_ws_quote.
    - change (print_members (kv :: kv' :: kvs))
        with (print_member kv +:+ String "," (String NL ("    " +:+ print_members (kv' :: kvs)))).
      unfold print_member. text. by rewrite skip_ws_quote. }
  pose proof (parse_members_print kv kvs rest fuel) as Hm. revert Hm. text. intros Hm.
  rewrite Hm by (cbn [length] in Hfuel; lia). reflexivity.
Qed.

(** The elements of a printed array, up to the text after its bracket. *)
Lemma parse_elements_print (o : Obj) (os : list Obj) (rest : string) (fuel : nat) :
  Forall (λ o', length (o :: os) + length o' + 2 ≤ fuel)%nat (o :: os) →
  parse_elements fuel
    (String NL ("  " +:+ print_elements (o :: os) +:+ String NL ("]" +:+ rest)))
  = Some (object_value <$> o :: os, rest).
Proof.
  revert o fuel. induction os as [|o' os IH]; intros o fuel Hfuel.
  - apply Forall_cons in Hfuel as [Ho _].
    destruct fuel as [|fuel]; [simpl in Ho; lia|].
    rewrite parse_elements_S. cbn [print_elements]. text.
    rewrite parse_value_nl, !parse_value_sp, parse_value_object
      by (cbn [length] in Ho; lia).
    cbn [mbind option_bind]. ws. rewrite skip_ws_keep by done. reflexivity.
  - apply Forall_cons in Hfuel as [Ho Hos].
    destruct fuel as [|fuel]; [simpl in Ho; lia|].
    rewrite parse_elements_S.
    change (print_elements (o :: o' :: os))
      with (print_object o +:+ String "," (String NL ("  " +:+ print_elements (o' :: os)))).
    text. rewrite parse_value_nl, !parse_value_sp, parse_value_object
      by (cbn [length] in Ho; lia).
    cbn [mbind option_bind]. rewrite skip_ws_keep by done.
    change (Ascii.eqb "," ",") with true. cbv iota.
    specialize (IH o' fuel).
    revert IH. text. intros ->; [reflexivity|].
    eapply Forall_impl; [exact Hos|]. intros x Hx. cbn [length] in *. lia.
Qed.

Lemma print_elements_length (os : list Obj) :
  (length os ≤ S (String.length (print_elements os)))%nat.
Proof.
  induction os as [|o [|o' os] IH]; [simpl; lia|simpl; lia|].
  change (print_elements (o :: o' :: os))
    with (print_object o +:+ String "," (String NL ("  " +:+ print_elements (o' :: os)))).
  rewrite length_append. cbn [String.length length] in *.
  rewrite length_append. cbn [String.length]. lia.
Qed.

Lemma print_elements_object (o : Obj) (os : list Obj) :
  o ∈ os → (String.length (print_object o) ≤ String.length (print_elements os))%nat.
Proof.
  induction os as [|o1 [|o2 os] IH]; intros Hin.
  - by apply elem_of_nil in Hin.
  - apply list_elem_of_singleton in Hin as ->. done.
  - change (print_elements (o1 :: o2 :: os))
      with (print_object o1 +:+ String "," (String NL ("  " +:+ print_elements (o2 :: os)))).
    rewrite length_append. cbn [String.length]. rewrite length_append.
    apply elem_of_cons in Hin as [->|Hin]; [lia|]. specialize (IH Hin). lia.
Qed.

Lemma value_of_text_print (os : list Obj) :
  value_of_text (print_document os) = Some (JArray (object_value <$> os)).
Proof.
  destruct os as [|o os]; [reflexivity|].
  unfold value_of_text.
  change (print_document (o :: os))
    with (String "[" (String NL ("  " +:+ print_elements (o :: os) +:+ String NL "]"))).
  set (fuel := (2 * String.length (String "[" (String NL ("  " +:+ print_elements (o :: os)
                                                          +:+ String NL "]"))) + 1)%nat).
  replace (2 * String.length (String "[" (String NL ("  " +:+ print_elements (o :: os)
                                                     +:+ String NL "]"))) + 2)%nat
    with (S fuel) by (unfold fuel; lia).
  rewrite parse_value_array_S.
  assert (expect "]" (String NL ("  " +:+ print_elements (o :: os) +:+ String NL "]"))
          = None) as ->.
  { text. unfold expect. ws.
    destruct (print_object_head o) as [t Ht]. destruct os as [|o' os].
    - cbn [print_elements]. rewrite Ht. reflexivity.
    - change (print_elements (o :: o' :: os))
        with (print_object o +:+ String "," (String NL ("  " +:+ print_elements (o' :: os)))).
      rewrite Ht. reflexivity. }
  pose proof (parse_elements_print o os "" fuel) as He.
  change ("]" +:+ "") with "]" in He.
  rewrite He; [reflexivity|].
  apply Forall_forall. intros x Hx.
  pose proof (print_elements_length (o :: os)) as Hl.
  pose proof (print_elements_object x (o :: os) Hx) as Hx'.
  pose proof (print_object_length x) as Hxl.
  unfold fuel. cbn [String.length]. rewrite !length_append. cbn [String.length]. lia.
Qed.

Lemma decode_encode (r : ReferenceItem) : decode (encode r) = Some r.
Proof. destruct r as [i [] ti [fp|] [sn|] c u]; reflexivity. Qed.

Lemma take_Some (k : string) (o : Obj) (v : string) (rest : Obj) :
  take k o = (Some v, rest) → o = (k, v) :: rest.
Proof.
  destruct o as [|[k' v'] o']; [done|]. cbn [take].
  destruct (String.eqb k' k) eqn:Hk; [|done].
  apply String.eqb_eq in Hk as ->. by intros [= -> ->].
Qed.

Lemma take_None (k : string) (o rest : Obj) : take k o = (None, rest) → o = rest.
Proof.
  destruct o as [|[k' v'] o']; [by intros [= <-]|]. cbn [take].
  destruct (String.eqb k' k); [done|]. by intros [= <-].
Qed.

Lemma type_of_name_Some (s : string) (t : ReferenceType) :
  type_of_name s = Some t → type_name t = s.
Proof.
  unfold type_of_name.
  destruct (String.eqb s "file") eqn:H1;
    [apply String.eqb_eq in H1 as ->; by intros [= <-]|].
  destruct (String.eqb s "file-snippet") eqn:H2;
    [apply String.eqb_eq in H2 as ->; by intros [= <-]|].
  destruct (String.eqb s "global-snippet") eqn:H3;
    [apply String.eqb_eq in H3 as ->; by intros [= <-]|].
  destruct (String.eqb s "comment") eqn:H4;
    [apply String.eqb_eq in H4 as ->; by intros [= <-]|].
  done.
Qed.

(** [decode] reads nothing but what [encode] writes. *)
Lemma decode_exact (o : Obj) (r : ReferenceItem) : decode o = Some r → encode r = o.
Proof.
  unfold decode.
  destruct (take "type" o) as [t o1] eqn:H1.
  destruct (take "title" o1) as [ti o2] eqn:H2.
  destruct (take "filePath" o2) as [fp o3] eqn:H3.
  destruct (take "snippet" o3) as [sn o4] eqn:H4.
  destruct (take "id" o4) as [i o5] eqn:H5.
  destruct (take "createdAt" o5) as [c o6] eqn:H6.
  destruct (take "updatedAt" o6) as [u o7] eqn:H7.
  destruct o7 as [|? ?]; [|done].
  destruct t as [t|]; [|done]. cbn [mbind option_bind].
  destruct (type_of_name t) as [t'|] eqn:Ht; [|done]. cbn [mbind option_bind].
  destruct ti as [ti|]; [|done]. destruct i as [i|]; [|done].
  destruct c as [c|]; [|done]. destruct u as [u|]; [|done].
  cbn [mbind option_bind]. intros [= <-]. unfold encode.
  cbn [id type title filePath snippet createdAt updatedAt].
  apply type_of_name_Some in Ht as ->.
  apply take_Some in H1 as ->. apply take_Some in H2 as ->.
  apply take_Some in H7 as ->. apply take_Some in H6 as ->. apply take_Some in H5 as ->.
  destruct fp as [fp|], sn as [sn|];
    repeat match goal with
           | H : take _ _ = (Some _, _) |- _ => apply take_Some in H as ->
           | H : take _ _ = (None, _) |- _ => apply take_None in H as ->
           end; reflexivity.
Qed.

Lemma as_record_encode (r : ReferenceItem) : as_record (object_value (encode r)) = Some r.
Proof.
  unfold as_record, object_value.
  assert (mapM as_member (member_value <$> encode r) = Some (encode r)) as ->.
  { apply mapM_Some. induction (encode r) as [|[k v] o IH]; constructor; done. }
  cbn [mbind option_bind]. apply decode_encode.
Qed.

(** What [JSON.stringify] writes, [JSON.parse] reads back. *)
Lemma parse_stringify (refs : list ReferenceItem) :
  Json.parse (Json.stringify refs) = Some refs.
Proof.
  unfold Json.parse, Json.stringify. rewrite value_of_text_print.
  cbn [mbind option_bind as_references]. rewrite <- list_fmap_compose.
  apply mapM_fmap_Some. intros r. apply as_record_encode.
Qed.

(** ** The fuel of the parser *)

Lemma parse_value_S (fuel : nat) (s : string) :
  parse_value (S fuel) s
  = match skip_ws s with
    | EmptyString => None
    | String c s1 =>
      if Ascii.eqb c "{" then
        match expect "}" s1 with
        | Some s2 => Some (JObject [], s2)
        | None => '(ms, s2) ← parse_members fuel s1; Some (JObject ms, s2)
        end
      else if Ascii.eqb c "[" then
        match expect "]" s1 with
        | Some s2 => Some (JArray [], s2)
        | None => '(vs, s2) ← parse_elements fuel s1; Some (JArray vs, s2)
        end
      else if Ascii.eqb c DQUOTE then '(t, s2) ← parse_chars s1; Some (JString t, s2)
      else if Ascii.eqb c "t" then s2 ← strip "rue" s1; Some (JBool true, s2)
      else if Ascii.eqb c "f" then s2 ← strip "alse" s1; Some (JBool false, s2)
      else if Ascii.eqb c "n" then s2 ← strip "ull" s1; Some (JNull, s2)
      else '(n, s2) ← parse_number (String c s1); Some (JNumber n, s2)
    end.
Proof. reflexivity. Qed.

(** What a parser leaves is shorter than what it was given. *)
Lemma skip_ws_length (s : string) : (String.length (skip_ws s) ≤ String.length s)%nat.
Proof.
  induction s as [|c s IH]; [done|]. cbn [skip_ws].
  destruct (is_ws c); cbn [String.length]; lia.
Qed.

Lemma skip_ws_String (s : string) (c : ascii) (s' : string) :
  skip_ws s = String c s' → (String.length s' < String.length s)%nat.
Proof.
  intros Hs. pose proof (skip_ws_length s) as Hl. rewrite Hs in Hl.
  cbn [String.length] in Hl. lia.
Qed.

Lemma expect_length (c : ascii) (s s' : string) :
  expect c s = Some s' → (String.length s' < String.length s)%nat.
Proof.
  unfold expect. destruct (skip_ws s) as [|d t] eqn:Hs; [done|].
  destruct (Ascii.eqb d c); [|done]. intros [= ->]. by eapply skip_ws_String.
Qed.

Lemma parse_chars_length (s : string) (t : Text) (rest : string) :
  parse_chars s = Some (t, rest) → (String.length rest < String.length s)%nat.
Proof.
  remember (String.length s) as n eqn:Hn. revert s t rest Hn.
  induction n as [n IH] using lt_wf_ind. intros s t rest -> Hp.
  destruct s as [|c s1]; [done|]. cbn [parse_chars] in Hp. cbn [String.length].
  destruct (N_of_ascii c =? 34)%N; [injection Hp as _ <-; lia|].
  destruct (N_of_ascii c =? 92)%N.
  - destruct s1 as [|e s2]; [done|]. cbn [String.length].
    destruct (unescape e).
    + destruct (parse_chars s2) as [[t' r']|] eqn:Hq; [|done].
      injection Hp as _ <-.
      pose proof (IH (String.length s2) ltac:(cbn [String.length]; lia) s2 t' r' eq_refl Hq). lia.
    + destruct (N_of_ascii e =? 117)%N; [|done].
      destruct s2 as [|h1 [|h2 [|h3 [|h4 s3]]]]; try done.
      destruct (hex4 h1 h2 h3 h4) as [u|]; [|done].
      destruct (parse_chars s3) as [[t' r']|] eqn:Hq;
        [|by destruct (u <? 256)%N].
      pose proof (IH (String.length s3) ltac:(cbn [String.length]; lia) s3 t' r' eq_refl Hq).
      cbn [String.length].
      destruct (u <? 256)%N; injection Hp as _ <-; lia.
  - destruct (N_of_ascii c <? 32)%N; [done|].
    destruct (parse_chars s1) as [[t' r']|] eqn:Hq; [|done].
    injection Hp as _ <-.
    pose proof (IH (String.length s1) ltac:(cbn [String.length]; lia) s1 t' r' eq_refl Hq). lia.
Qed.

Lemma parse_string_length (s : string) (t : Text) (rest : string) :
  parse_string s = Some (t, rest) → (String.length rest < String.length s)%nat.
Proof.
  destruct s as [|c s1]; [done|]. cbn [parse_string String.length].
  destruct (N_of_ascii c =? 34)%N; [|done]. intros Hp%parse_chars_length. lia.
Qed.

Lemma strip_length (word s rest : string) :
  strip word s = Some rest → (String.length rest ≤ String.length s)%nat.
Proof.
  revert s. induction word as [|c word IH]; intros s; cbn [strip].
  - by intros [= ->].
  - destruct s as [|d s']; [done|]. destruct (Ascii.eqb c d); [|done].
    intros Hs%IH. cbn [String.length]. lia.
Qed.

Lemma digits_length (s : string) :
  (String.length (digits s).2 ≤ String.length s)%nat.
Proof.
  induction s as [|c s IH]; [done|]. cbn [digits].
  destruct (is_digit c); cbn [snd String.length]; lia.
Qed.

Lemma digits1_length (s d rest : string) :
  digits1 s = Some (d, rest) → (String.length rest ≤ String.length s)%nat.
Proof.
  unfold digits1. pose proof (digits_length s) as Hl.
  destruct (digits s) as [[|c d'] r]; [done|]. intros [= _ <-]. done.
Qed.

Lemma parse_unsigned_length (s n rest : string) :
  parse_unsigned s = Some (n, rest) → (String.length rest < String.length s)%nat.
Proof.
  unfold parse_unsigned.
  destruct (parse_int s) as [[i s1]|] eqn:Hi; [|done]. cbn [mbind option_bind].
  destruct (parse_frac s1) as [[f s2]|] eqn:Hf; [|done]. cbn [mbind option_bind].
  destruct (parse_exp s2) as [[e s3]|] eqn:He; [|done]. cbn [mbind option_bind].
  intros [= _ <-].
  assert (String.length s1 < String.length s)%nat as H1.
  { destruct s as [|c s']; [done|]. cbn [parse_int] in Hi. cbn [String.length].
    destruct (Ascii.eqb c "0"); [injection Hi as _ <-; lia|].
    destruct (is_digit c); [|done]. injection Hi as _ <-.
    pose proof (digits_length s'). lia. }
  assert (String.length s2 ≤ String.length s1)%nat as H2.
  { destruct s1 as [|c s']; [by injection Hf as _ <-|]. cbn [parse_frac] in Hf.
    destruct (Ascii.eqb c "."); [|by injection Hf as _ <-].
    destruct (digits1 s') as [[d r]|] eqn:Hd; [|done]. injection Hf as _ <-.
    apply digits1_length in Hd. cbn [String.length]. lia. }
  assert (String.length s3 ≤ String.length s2)%nat as H3.
  { destruct s2 as [|c s']; [by injection He as _ <-|]. cbn [parse_exp] in He.
    destruct (Ascii.eqb c "e" || Ascii.eqb c "E"); [|by injection He as _ <-].
    destruct s' as [|g s'']; [done|].
    destruct (Ascii.eqb g "+" || Ascii.eqb g "-").
    - destruct (digits1 s'') as [[d r]|] eqn:Hd; [|done]. injection He as _ <-.
      apply digits1_length in Hd. cbn [String.length]. lia.
    - destruct (digits1 (String g s'')) as [[d r]|] eqn:Hd; [|done]. injection He as _ <-.
      apply digits1_length in Hd. cbn [String.length] in *. lia. }
  lia.
Qed.

Lemma parse_number_length (s n rest : string) :
  parse_number s = Some (n, rest) → (String.length rest < String.length s)%nat.
Proof.
  destruct s as [|c s']; [done|]. cbn [parse_number].
  destruct (Ascii.eqb c "-").
  - destruct (parse_unsigned s') as [[m r]|] eqn:Hu; [|done]. intros [= _ <-].
    apply parse_unsigned_length in Hu. cbn [String.length]. lia.
  - apply parse_unsigned_length.
Qed.

Lemma parse_length (fuel : nat) :
  (∀ s v rest, parse_value fuel s = Some (v, rest) →
               (String.length rest < String.length s)%nat) ∧
  (∀ s ms rest, parse_members fuel s = Some (ms, rest) →
                (String.length rest < String.length s)%nat) ∧
  (∀ s vs rest, parse_elements fuel s = Some (vs, rest) →
                (String.length rest < String.length s)%nat).
Proof.
  induction fuel as [|fuel (IHv & IHm & IHe)]; [done|].
  assert (∀ s v rest, parse_value (S fuel) s = Some (v, rest) →
                      (String.length rest < String.length s)%nat) as Hv.
  { intros s v rest. rewrite parse_value_S.
    destruct (skip_ws s) as [|c s1] eqn:Hs; [done|]. apply skip_ws_String in Hs.
    destruct (Ascii.eqb c "{").
    { destruct (expect "}" s1) as [s2|] eqn:He.
      - intros [= _ <-]. apply expect_length in He. lia.
      - destruct (parse_members fuel s1) as [[ms s2]|] eqn:Hm; [|done].
        intros [= _ <-]. apply IHm in Hm. lia. }
    destruct (Ascii.eqb c "[").
    { destruct (expect "]" s1) as [s2|] eqn:He.
      - intros [= _ <-]. apply expect_length in He. lia.
      - destruct (parse_elements fuel s1) as [[vs s2]|] eqn:Hm; [|done].
        intros [= _ <-]. apply IHe in Hm. lia. }
    destruct (Ascii.eqb c DQUOTE).
    { destruct (parse_chars s1) as [[t s2]|] eqn:Hc; [|done].
      intros [= _ <-]. apply parse_chars_length in Hc. lia. }
    destruct (Ascii.eqb c "t").
    { destruct (strip "rue" s1) as [s2|] eqn:Hc; [|done].
      intros [= _ <-]. apply strip_length in Hc. lia. }
    destruct (Ascii.eqb c "f").
    { destruct (strip "alse" s1) as [s2|] eqn:Hc; [|done].
      intros [= _ <-]. apply strip_length in Hc. lia. }
    destruct (Ascii.eqb c "n").
    { destruct (strip "ull" s1) as [s2|] eqn:Hc; [|done].
      intros [= _ <-]. apply strip_length in Hc. lia. }
    destruct (parse_number (String c s1)) as [[n s2]|] eqn:Hc; [|done].
    intros [= _ <-]. apply parse_number_length in Hc. cbn [String.length] in Hc. lia. }
  split; [exact Hv|]. split.
  - intros s ms rest. rewrite parse_members_S.
    destruct (parse_string (skip_ws s)) as [[k s1]|] eqn:Hk; [|done].
    apply parse_string_length in Hk. pose proof (skip_ws_length s).
    cbn [mbind option_bind].
    destruct (expect ":" s1) as [s2|] eqn:He; [|done]. apply expect_length in He.
    cbn [mbind option_bind].
    destruct (parse_value fuel s2) as [[v s3]|] eqn:Hp; [|done]. apply IHv in Hp.
    cbn [mbind option_bind].
    destruct (skip_ws s3) as [|d s4] eqn:Hs; [done|]. apply skip_ws_String in Hs.
    destruct (Ascii.eqb d ",").
    + destruct (parse_members fuel s4) as [[ms' s5]|] eqn:Hm; [|done].
      intros [= _ <-]. apply IHm in Hm. lia.
    + destruct (Ascii.eqb d "}"); [|done]. intros [= _ <-]. lia.
  - intros s vs rest. rewrite parse_elements_S.
    destruct (parse_value fuel s) as [[v s1]|] eqn:Hp; [|done]. apply IHv in Hp.
    cbn [mbind option_bind].
    destruct (skip_ws s1) as [|d s2] eqn:Hs; [done|]. apply skip_ws_String in Hs.
    destruct (Ascii.eqb d ",").
    + destruct (parse_elements fuel s2) as [[vs' s3]|] eqn:Hm; [|done].
      intros [= _ <-]. apply IHe in Hm. lia.
    + destruct (Ascii.eqb d "]"); [|done]. intros [= _ <-]. lia.
Qed.

(** With twice the length of the text as fuel the three functions have
    enough: more fuel does not change what they answer. *)
Lemma parse_fuel (n : nat) (s : string) :
  String.length s = n →
  (∀ f1 f2, (2 * n + 1 ≤ f1)%nat → (2 * n + 1 ≤ f2)%nat →
            parse_value f1 s = parse_value f2 s) ∧
  (∀ f1 f2, (2 * n + 2 ≤ f1)%nat → (2 * n + 2 ≤ f2)%nat →
            parse_members f1 s = parse_members f2 s) ∧
  (∀ f1 f2, (2 * n + 2 ≤ f1)%nat → (2 * n + 2 ≤ f2)%nat →
            parse_elements f1 s = parse_elements f2 s).
Proof.
  revert s. induction n as [n IH] using lt_wf_ind. intros s Hn.
  assert (∀ f1 f2, (2 * n + 1 ≤ f1)%nat → (2 * n + 1 ≤ f2)%nat →
                   parse_value f1 s = parse_value f2 s) as Hv.
  { intros [|f1] [|f2] H1 H2; [lia..|]. rewrite !parse_value_S.
    destruct (skip_ws s) as [|c s1] eqn:Hs; [done|]. apply skip_ws_String in Hs.
    destruct (IH (String.length s1) ltac:(lia) s1 eq_refl) as (_ & Hm & He).
    rewrite (Hm f1 f2), (He f1 f2) by lia. reflexivity. }
  split; [exact Hv|]. split.
  - intros [|f1] [|f2] H1 H2; [lia..|]. rewrite !parse_members_S.
    destruct (parse_string (skip_ws s)) as [[k s1]|] eqn:Hk; [|done].
    apply parse_string_length in Hk. pose proof (skip_ws_length s).
    cbn [mbind option_bind].
    destruct (expect ":" s1) as [s2|] eqn:He; [|done]. apply expect_length in He.
    cbn [mbind option_bind].
    destruct (IH (String.length s2) ltac:(lia) s2 eq_refl) as (Hv2 & _ & _).
    rewrite (Hv2 f1 f2) by lia.
    destruct (parse_value f2 s2) as [[v s3]|] eqn:Hp; [|done].
    apply (proj1 (parse_length f2)) in Hp. cbn [mbind option_bind].
    destruct (skip_ws s3) as [|d s4] eqn:Hs; [done|]. apply skip_ws_String in Hs.
    destruct (IH (String.length s4) ltac:(lia) s4 eq_refl) as (_ & Hm4 & _).
    by rewrite (Hm4 f1 f2) by lia.
  - intros [|f1] [|f2] H1 H2; [lia..|]. rewrite !parse_elements_S.
    rewrite (Hv f1 f2) by lia.
    destruct (parse_value f2 s) as [[v s1]|] eqn:Hp; [|done].
    apply (proj1 (parse_length f2)) in Hp. cbn [mbind option_bind].
    destruct (skip_ws s1) as [|d s2] eqn:Hs; [done|]. apply skip_ws_String in Hs.
    destruct (IH (String.length s2) ltac:(lia) s2 eq_refl) as (_ & _ & He2).
    by rewrite (He2 f1 f2) by lia.
Qed.

(** [value_of_text] does not depend on the fuel it gives. *)
Lemma value_of_text_fuel (data : string) (fuel : nat) :
  (2 * String.length data + 1 ≤ fuel)%nat →
  value_of_text data
  = ('(v, rest) ← parse_value fuel data;
     match skip_ws rest with
     | EmptyString => Some v
     | String _ _ => None
     end).
Proof.
  intros Hfuel. unfold value_of_text.
  destruct (parse_fuel (String.length data) data eq_refl) as (Hv & _).
  by rewrite (Hv (2 * String.length data + 2)%nat fuel) by lia.
Qed.

(** * Properties of the reference store *)

(** ** Running the methods *)

Lemma saveReferences_run σ : saveReferences σ = (Ok tt, saved σ).
Proof.
  unfold saveReferences, saved, try_catch, bind, gets, JSON_stringify, writeFileSync.
  simpl. destruct (decide (storagePath σ ∈ denied σ)); reflexivity.
Qed.

Lemma saved_references σ : references (saved σ) = references σ.
Proof. unfold saved. case_decide; reflexivity. Qed.

Lemma saved_heap σ : heap (saved σ) = heap σ.
Proof. unfold saved. case_decide; reflexivity. Qed.

Lemma saved_denied σ : denied (saved σ) = denied σ.
Proof. unfold saved. case_decide; reflexivity. Qed.

Lemma saved_storagePath σ : storagePath (saved σ) = storagePath σ.
Proof. unfold saved. case_decide; reflexivity. Qed.

Lemma saved_view σ : view (saved σ) = view σ.
Proof. unfold view, deref. by rewrite saved_references, saved_heap. Qed.

Lemma saved_file σ :
  storagePath σ ∉ denied σ →
  files (saved σ) !! storagePath σ = Some (Json.stringify (view σ)).
Proof.
  intros Hw. unfold saved. rewrite decide_False by done. simpl.
  apply lookup_insert_eq.
Qed.

(** The boolean callbacks of the source against stdpp's [filter] and
    [∈]. *)
Lemma filter_bool {A} (p : A → bool) (l : list A) :
  List.filter p l = filter (λ x, p x = true) l.
Proof.
  induction l as [|x l IH]; [done|]. simpl. rewrite filter_cons.
  destruct (p x); simpl; by rewrite IH.
Qed.

Lemma find_none_absent σ i :
  JS.find (λ r, String.eqb (id (deref σ r)) i) (references σ) = None ↔
  i ∉ id <$> view σ.
Proof.
  unfold JS.find, view. rewrite <- list_fmap_compose. split.
  - intros Hn [l [-> Hl]]%list_elem_of_fmap.
    apply list_elem_of_In in Hl.
    pose proof (find_none _ _ Hn l Hl) as Hf. simpl in Hf.
    by rewrite String.eqb_refl in Hf.
  - intros Hni. destruct (List.find _ _) as [l|] eqn:Hf; [|done].
    apply find_some in Hf as [Hl Hi]. exfalso. apply Hni.
    apply list_elem_of_fmap. exists l. split; [|by apply list_elem_of_In].
    simpl. symmetry. by apply String.eqb_eq.
Qed.

Lemma find_by_id_none σ i : find_by_id σ i = None ↔ i ∉ ids σ.
Proof. apply find_none_absent. Qed.

Lemma deleteReference_run i σ :
  deleteReference i σ =
  (Ok tt, saved (set_references
                   (JS.filter (λ r, negb (String.eqb (id (deref σ r)) i))) σ)).
Proof.
  unfold deleteReference, bind, gets, modify. simpl.
  by rewrite saveReferences_run.
Qed.

Lemma deleted_view i σ :
  view (saved (set_references
                 (JS.filter (λ r, negb (String.eqb (id (deref σ r)) i))) σ)) =
  filter (λ r, id r ≠ i) (view σ).
Proof.
  rewrite saved_view. unfold view, deref, JS.filter. simpl.
  induction (references σ) as [|l ls IH]; [done|].
  simpl. rewrite filter_cons.
  destruct (String.eqb_spec (id (heap σ !!! l)) i) as [He|He]; simpl.
  - by rewrite decide_False by (by intros ?).
  - rewrite decide_True by done. f_equal. apply IH.
Qed.

(** ** Delete *)

(** C9: deleting an id that no record carries leaves the collection as it
    was, same records in the same order, and returns normally. *)
Theorem delete_absent_is_noop (σ : State) (i : string) :
  i ∉ ids σ →
  ∃ σ', deleteReference i σ = (Ok tt, σ') ∧
        references σ' = references σ ∧ heap σ' = heap σ ∧ view σ' = view σ.
Proof.
  intros Hi. eexists. split; [apply deleteReference_run|].
  rewrite saved_references, saved_heap, saved_view.
  assert (JS.filter (λ r, negb (String.eqb (id (deref σ r)) i)) (references σ)
          = references σ) as Hf.
  { unfold ids, view in Hi. rewrite <- list_fmap_compose in Hi.
    unfold JS.filter. induction (references σ) as [|l ls IH]; [done|].
    simpl in *. apply not_elem_of_cons in Hi as [Hne Hi].
    destruct (String.eqb_spec (id (deref σ l)) i) as [He|He]; [by subst|].
    simpl. by rewrite IH. }
  unfold view. cbn [references set_references heap]. by rewrite Hf.
Qed.

Ltac by_evaluation :=
  match goal with
  | |- ?P => refine (bool_decide_unpack P _); vm_compute; exact I
  end.

Lemma delete_absent_is_noop_witness :
  ("Z" ∉ ids Demo.abc) ∧
  ∃ σ', deleteReference "Z" Demo.abc = (Ok tt, σ') ∧
        references σ' = references Demo.abc ∧ heap σ' = heap Demo.abc ∧
        view σ' = view Demo.abc.
Proof.
  split; [by_evaluation|]. apply (delete_absent_is_noop Demo.abc "Z"). by_evaluation.
Defined.

(** C10: after a delete no record with the given id is left, however many
    carried it, and the records with other ids stay, in their order. *)
Theorem delete_removes_every_match (σ : State) (i : string) :
  ∃ σ', deleteReference i σ = (Ok tt, σ') ∧
        (i ∉ ids σ') ∧
        filter (λ r, id r ≠ i) (view σ') = filter (λ r, id r ≠ i) (view σ) ∧
        references σ' `sublist_of` references σ ∧
        heap σ' = heap σ.
Proof.
  eexists. split; [apply deleteReference_run|].
  unfold ids. rewrite deleted_view, saved_references, saved_heap. simpl.
  split; [|split; [|split; [|done]]].
  - intros [r [-> Hr]]%list_elem_of_fmap.
    apply list_elem_of_filter in Hr as [Hr _]. by apply Hr.
  - rewrite list_filter_filter. apply list_filter_iff. tauto.
  - unfold JS.filter. rewrite filter_bool. apply sublist_filter.
Qed.

Example delete_twins :
  view (deleteReference "A" Demo.twins).2 = [Demo.item "B" "b"].
Proof. vm_compute. reflexivity. Qed.

(** ** Reorder *)

Lemma find_by_id_some σ i l :
  find_by_id σ i = Some l → l ∈ references σ ∧ id (deref σ l) = i.
Proof.
  unfold find_by_id, JS.find. intros [Hl Hi]%find_some. split.
  - by apply list_elem_of_In.
  - by apply String.eqb_eq.
Qed.

Lemma find_by_id_first σ l :
  ids_identify σ → l ∈ references σ → find_by_id σ (id (deref σ l)) = Some l.
Proof.
  intros Huniq Hl. destruct (find_by_id σ (id (deref σ l))) as [l'|] eqn:Hf.
  - apply find_by_id_some in Hf as [Hl' Hi]. f_equal. by apply Huniq.
  - apply find_by_id_none in Hf. exfalso. apply Hf.
    unfold ids, view. rewrite <- list_fmap_compose.
    apply list_elem_of_fmap. by exists l.
Qed.

(** The first loop pushes the record found for each id of the request. *)
Lemma forEach_named σ (newOrder : list string) (acc : list loc) :
  JS.forEach newOrder
    (λ (acc : list loc) (i : string),
       match JS.find (λ r, String.eqb (id (deref σ r)) i) (references σ) with
       | Some ref => JS.push acc ref
       | None => acc
       end) acc
  = acc ++ omap (find_by_id σ) newOrder.
Proof.
  unfold JS.forEach. revert acc.
  induction newOrder as [|i rest IH]; intros acc; simpl.
  - by rewrite app_nil_r.
  - rewrite IH. fold (find_by_id σ i).
    destruct (find_by_id σ i); [|done].
    unfold JS.push. by rewrite <- app_assoc.
Qed.

(** The second loop pushes the records whose id the request leaves out. *)
Lemma forEach_unnamed σ (newOrder : list string) (refs acc : list loc) :
  JS.forEach refs
    (λ (acc : list loc) (ref : loc),
       if negb (JS.includes newOrder (id (deref σ ref)))
       then JS.push acc ref else acc) acc
  = acc ++ filter (λ l, id (deref σ l) ∉ newOrder) refs.
Proof.
  unfold JS.forEach, JS.includes. revert acc.
  induction refs as [|l rest IH]; intros acc; simpl.
  - by rewrite app_nil_r.
  - rewrite IH, filter_cons. case_bool_decide; simpl.
    + by rewrite decide_False by (by intros ?).
    + rewrite decide_True by done. unfold JS.push. by rewrite <- app_assoc.
Qed.

Lemma updateOrder_run newOrder σ :
  updateOrder newOrder σ =
  (Ok tt, saved (set_references
                   (λ _, omap (find_by_id σ) newOrder
                         ++ filter (λ l, id (deref σ l) ∉ newOrder) (references σ)) σ)).
Proof.
  unfold updateOrder, bind, gets, modify.
  rewrite forEach_named, forEach_unnamed, saveReferences_run. reflexivity.
Qed.

Lemma named_ids σ (newOrder : list string) :
  (λ l, id (deref σ l)) <$> omap (find_by_id σ) newOrder
  = filter (λ i, i ∈ ids σ) newOrder.
Proof.
  induction newOrder as [|i rest IH]; [done|].
  rewrite filter_cons. simpl.
  destruct (find_by_id σ i) as [l|] eqn:Hf.
  - pose proof Hf as [Hl Hi]%find_by_id_some.
    assert (i ∈ ids σ) as Hin.
    { destruct (decide (i ∈ ids σ)) as [|Hni]; [done|].
      apply find_by_id_none in Hni. congruence. }
    rewrite decide_True by done. simpl. rewrite Hi. f_equal. apply IH.
  - apply find_by_id_none in Hf. rewrite decide_False by done. apply IH.
Qed.

(** C1, as the code has it: the records found for the ids of the request,
    in the order of the request and skipping the ids the store does not
    have, then the records the request leaves out, in their prior order.
    When no two distinct records share an id, every record of the store is
    still there afterwards. *)
Theorem reorder_named_then_rest (σ : State) (newOrder : list string) :
  ids_identify σ →
  ∃ σ' front back,
    updateOrder newOrder σ = (Ok tt, σ') ∧
    heap σ' = heap σ ∧
    references σ' = front ++ back ∧
    (λ l, id (deref σ l)) <$> front = filter (λ i, i ∈ ids σ) newOrder ∧
    front ⊆ references σ ∧
    back = filter (λ l, id (deref σ l) ∉ newOrder) (references σ) ∧
    references σ ⊆ references σ'.
Proof.
  intros Huniq.
  exists (saved (set_references
                   (λ _, omap (find_by_id σ) newOrder
                         ++ filter (λ l, id (deref σ l) ∉ newOrder) (references σ)) σ)),
         (omap (find_by_id σ) newOrder),
         (filter (λ l, id (deref σ l) ∉ newOrder) (references σ)).
  rewrite saved_heap, saved_references. cbn [references set_references heap].
  split; [apply updateOrder_run|]. split; [done|]. split; [done|].
  split; [apply named_ids|]. split; [|split; [done|]].
  - intros l [i [_ Hf]]%list_elem_of_omap.
    by apply find_by_id_some in Hf as [? _].
  - intros l Hl. apply elem_of_app.
    destruct (decide (id (deref σ l) ∈ newOrder)) as [Hin|Hni].
    + left. apply list_elem_of_omap. exists (id (deref σ l)).
      split; [done|]. by apply find_by_id_first.
    + right. by apply list_elem_of_filter.
Qed.

Lemma reorder_named_then_rest_witness :
  ∃ σ' front back,
    updateOrder ["C"; "Z"] Demo.abc = (Ok tt, σ') ∧
    heap σ' = heap Demo.abc ∧
    references σ' = front ++ back ∧
    (λ l, id (deref Demo.abc l)) <$> front = filter (λ i, i ∈ ids Demo.abc) ["C"; "Z"] ∧
    front ⊆ references Demo.abc ∧
    back = filter (λ l, id (deref Demo.abc l) ∉ ["C"; "Z"]) (references Demo.abc) ∧
    references Demo.abc ⊆ references σ'.
Proof. apply (reorder_named_then_rest Demo.abc ["C"; "Z"]). by_evaluation. Defined.

Example reorder_abc :
  id <$> view (updateOrder ["C"; "Z"] Demo.abc).2 = ["C"; "A"; "B"].
Proof. vm_compute. reflexivity. Qed.

(** C1 as stated fails on a store in which two records carry the same id:
    the request names the id, the first of the two is placed, and the
    second is dropped. *)
Lemma reorder_drops_twin :
  Demo.item "A" "second" ∈ view Demo.twins ∧
  Demo.item "A" "second" ∉ view (updateOrder ["A"] Demo.twins).2.
Proof. split; by_evaluation. Qed.

(** ** Add *)

Lemma fresh_unallocated (h : gmap loc ReferenceItem) : h !! fresh (dom h) = None.
Proof. apply not_elem_of_dom, is_fresh. Qed.

(** C4: [addReference] makes a new object from its argument, with an id
    built from a clock reading and a random draw taken during the call and
    one time stamp in both [createdAt] and [updatedAt], puts it at the end
    of the array and returns it.  Nothing about the argument or the store
    is checked: the call succeeds in every state, and the objects that
    were there are as they were. *)
Theorem add_appends_new_record (reference : NewReference) (σ : State) :
  ∃ l r σ',
    addReference reference σ = (Ok l, σ') ∧
    heap σ !! l = None ∧
    heap σ' = <[l := r]> (heap σ) ∧
    references σ' = references σ ++ [l] ∧
    type r = new_type reference ∧
    title r = new_title reference ∧
    filePath r = new_filePath reference ∧
    snippet r = new_snippet reference ∧
    createdAt r = toISOString (host σ) (clock (host σ) (ticks σ)) ∧
    updatedAt r = createdAt r ∧
    id r = "ref-" +:+ pretty (clock (host σ) (S (ticks σ))) +:+ "-"
           +:+ JS.substr (random36 (host σ) (draws σ)) 2 9 ∧
    ticks σ' = S (S (ticks σ)) ∧
    draws σ' = S (draws σ) ∧
    (files σ' !! storagePath σ = Some (Json.stringify (view σ'))
     ∨ storagePath σ ∈ denied σ).
Proof.
  unfold addReference, bind, new_Date_toISOString, Date_now,
    Math_random_toString36, alloc, modify, ret.
  cbn [ticks draws set_ticks set_draws host heap references].
  rewrite saveReferences_run.
  eexists _, _, _. split; [reflexivity|].
  rewrite saved_heap, saved_references.
  cbn [ticks draws set_ticks set_draws set_heap set_references host heap
       references id type title filePath snippet createdAt updatedAt].
  split; [apply fresh_unallocated|].
  repeat (split; [reflexivity|]).
  split; [unfold saved; case_decide; reflexivity|].
  split; [unfold saved; case_decide; reflexivity|].
  match goal with
  | |- context [saved ?s] =>
    destruct (decide (storagePath s ∈ denied s)) as [Hd|Hd];
      [right; exact Hd|left; rewrite saved_view; apply (saved_file s Hd)]
  end.
Qed.

Example add_twice_keeps_both :
  let reference := {| new_type := TComment; new_title := "note";
                      new_filePath := None; new_snippet := None |} in
  let σ' := (run_ops [Add reference; Add reference] Demo.abc).2 in
  (title <$> view σ') = ["a"; "b"; "c"; "note"; "note"] ∧
  (id <$> view σ') = ["A"; "B"; "C"; "ref-1700000000001-k3x9q2m7p";
                      "ref-1700000000003-k3x9q2m7p"].
Proof. vm_compute. split; reflexivity. Qed.

(** The id is new only as far as the clock and the random source are: on
    a host that answers the same twice, two adds give the same id. *)
Example add_same_id_on_a_stalled_host :
  let stalled := {| clock := λ _, 1700000000000;
                    toISOString := λ ms, "T" +:+ pretty ms;
                    random36 := λ _, "0.k3x9q2m7p1zz" |} in
  let reference := {| new_type := TComment; new_title := "note";
                      new_filePath := None; new_snippet := None |} in
  ids (run_ops [Add reference; Add reference]
         (fresh_manager Demo.path ∅ ∅ stalled)).2
  = ["ref-1700000000000-k3x9q2m7p"; "ref-1700000000000-k3x9q2m7p"].
Proof. vm_compute. reflexivity. Qed.

(** ** Rename *)

(** The state after the two assignments of [updateReferenceTitle] to the
    object [l]. *)
Lemma updateReferenceTitle_run i t σ :
  updateReferenceTitle i t σ =
  match find_by_id σ i with
  | Some l =>
    (Ok tt,
     saved (set_heap
              (insert l (with_updatedAt
                           (toISOString (host σ) (clock (host σ) (ticks σ)))
                           (with_title t (deref σ l))))
              (set_ticks S σ)))
  | None => (Ok tt, σ)
  end.
Proof.
  unfold updateReferenceTitle, bind, gets. fold (find_by_id σ i).
  destruct (find_by_id σ i) as [l|]; [|reflexivity].
  unfold modify, new_Date_toISOString.
  cbn [set_heap heap host ticks set_ticks].
  rewrite saveReferences_run. do 2 f_equal.
  unfold set_heap, set_ticks. cbn [heap host ticks references storagePath files
    denied console draws].
  by rewrite lookup_total_insert_eq, insert_insert_eq.
Qed.

(** C5, as the code has it: the first record with the id gets the new
    title and a new [updatedAt], its other fields and all other objects
    stay as they were, and the collection is saved; when no record has the
    id the call changes nothing at all, the backing file included. *)
Theorem rename_first_match (σ : State) (i t : string) :
  (i ∈ ids σ →
   ∃ l r' σ',
     find_by_id σ i = Some l ∧
     updateReferenceTitle i t σ = (Ok tt, σ') ∧
     references σ' = references σ ∧
     heap σ' = <[l := r']> (heap σ) ∧
     title r' = t ∧
     updatedAt r' = toISOString (host σ) (clock (host σ) (ticks σ)) ∧
     id r' = id (deref σ l) ∧
     type r' = type (deref σ l) ∧
     filePath r' = filePath (deref σ l) ∧
     snippet r' = snippet (deref σ l) ∧
     createdAt r' = createdAt (deref σ l) ∧
     (files σ' !! storagePath σ = Some (Json.stringify (view σ'))
      ∨ storagePath σ ∈ denied σ)) ∧
  (i ∉ ids σ → updateReferenceTitle i t σ = (Ok tt, σ)).
Proof.
  rewrite updateReferenceTitle_run. split.
  - intros Hin. destruct (find_by_id σ i) as [l|] eqn:Hf.
    2: { apply find_by_id_none in Hf. done. }
    eexists l, _, _. split; [done|]. split; [reflexivity|].
    rewrite saved_references, saved_heap.
    cbn [set_heap set_ticks references heap].
    split; [done|]. split; [reflexivity|].
    repeat (split; [reflexivity|]).
    match goal with
    | |- context [saved ?s] =>
      destruct (decide (storagePath s ∈ denied s)) as [Hd|Hd];
        [right; exact Hd|left; rewrite saved_view; apply (saved_file s Hd)]
    end.
  - intros Hni. apply find_by_id_none in Hni. by rewrite Hni.
Qed.

Lemma rename_first_match_witness :
  (∃ l r' σ',
     find_by_id Demo.abc "B" = Some l ∧
     updateReferenceTitle "B" "beta" Demo.abc = (Ok tt, σ') ∧
     references σ' = references Demo.abc ∧
     heap σ' = <[l := r']> (heap Demo.abc) ∧
     title r' = "beta" ∧
     updatedAt r' = toISOString (host Demo.abc) (clock (host Demo.abc) (ticks Demo.abc)) ∧
     id r' = id (deref Demo.abc l) ∧
     type r' = type (deref Demo.abc l) ∧
     filePath r' = filePath (deref Demo.abc l) ∧
     snippet r' = snippet (deref Demo.abc l) ∧
     createdAt r' = createdAt (deref Demo.abc l) ∧
     (files σ' !! storagePath Demo.abc = Some (Json.stringify (view σ'))
      ∨ storagePath Demo.abc ∈ denied Demo.abc)) ∧
  updateReferenceTitle "Z" "zeta" Demo.abc = (Ok tt, Demo.abc).
Proof.
  split.
  - apply (proj1 (rename_first_match Demo.abc "B" "beta")). by_evaluation.
  - apply (proj2 (rename_first_match Demo.abc "Z" "zeta")). by_evaluation.
Defined.

Example rename_abc :
  view (updateReferenceTitle "B" "beta" Demo.abc).2
  = [Demo.item "A" "a";
     with_updatedAt "T1700000000000" (Demo.item "B" "beta");
     Demo.item "C" "c"].
Proof. vm_compute. reflexivity. Qed.

(** After a reorder that names an id twice the array holds one object at
    two indices, and a rename shows at both. *)
Example rename_shared_object :
  title <$> view (run_ops [Reorder ["A"; "A"]; Rename "A" "alpha"] Demo.abc).2
  = ["alpha"; "alpha"; "b"; "c"].
Proof. vm_compute. reflexivity. Qed.

(** C5 as stated fails where it says the collection is persisted in both
    cases: started on a file that is not JSON, the store is empty; a rename
    of an unknown id leaves the file as it was, although it can be written,
    while a delete of the same id rewrites it. *)
Lemma rename_absent_not_persisted :
  let σ' := (updateReferenceTitle "Z" "zeta" Demo.corrupt).2 in
  ("Z" ∉ ids Demo.corrupt) ∧
  (storagePath Demo.corrupt ∉ denied Demo.corrupt) ∧
  files σ' !! storagePath σ' = Some "not json" ∧
  files σ' !! storagePath σ' ≠ Some (Json.stringify (view σ')) ∧
  files (deleteReference "Z" Demo.corrupt).2 !! storagePath σ'
  = Some (Json.stringify (view σ')).
Proof.
  cbv zeta. split; [by_evaluation|]. split; [by_evaluation|].
  split; [vm_compute; reflexivity|]. split; [vm_compute; discriminate|].
  vm_compute; reflexivity.
Qed.

(** ** Load *)

Lemma loadReferences_absent σ :
  files σ !! storagePath σ = None → loadReferences σ = (Ok tt, σ).
Proof.
  intros Hf. unfold loadReferences, try_catch, bind, gets, existsSync. simpl.
  rewrite Hf. rewrite bool_decide_eq_false_2 by (by intros [? ?]). reflexivity.
Qed.

Lemma loadReferences_denied σ data :
  files σ !! storagePath σ = Some data → storagePath σ ∈ denied σ →
  loadReferences σ =
  (Ok tt, set_references (λ _, [])
            (set_console (λ c, JS.push c ("Failed to load references:",
                                          EACCES (storagePath σ))) σ)).
Proof.
  intros Hf Hd. unfold loadReferences, try_catch, bind, gets, existsSync. simpl.
  rewrite Hf. rewrite bool_decide_eq_true_2 by eauto.
  unfold readFileSync. rewrite decide_True by done. reflexivity.
Qed.

Lemma loadReferences_unparsable σ data :
  files σ !! storagePath σ = Some data → storagePath σ ∉ denied σ →
  Json.value_of_text data = None →
  loadReferences σ =
  (Ok tt, set_references (λ _, [])
            (set_console (λ c, JS.push c ("Failed to load references:",
                                          SyntaxError)) σ)).
Proof.
  intros Hf Hd Hp. unfold loadReferences, try_catch, bind, gets, existsSync. simpl.
  rewrite Hf. rewrite bool_decide_eq_true_2 by eauto.
  unfold readFileSync. rewrite decide_False by done. rewrite Hf.
  unfold JSON_parse. rewrite Hp. reflexivity.
Qed.

(** A JSON text that is not the text of a collection: nothing is thrown,
    nothing is logged, and [this.references] holds a value that is not a
    [ReferenceItem[]]. *)
Lemma loadReferences_untyped σ data v :
  files σ !! storagePath σ = Some data → storagePath σ ∉ denied σ →
  Json.value_of_text data = Some v → Json.as_references v = None →
  loadReferences σ = (Untyped, σ).
Proof.
  intros Hf Hd Hp Hv. unfold loadReferences, try_catch, bind, gets, existsSync. simpl.
  rewrite Hf. rewrite bool_decide_eq_true_2 by eauto.
  unfold readFileSync. rewrite decide_False by done. rewrite Hf.
  unfold JSON_parse. rewrite Hp, Hv. reflexivity.
Qed.

Lemma alloc_all_ok items σ :
  ∃ ls σ', alloc_all items σ = (Ok ls, σ') ∧
           references σ' = references σ ∧ storagePath σ' = storagePath σ ∧
           files σ' = files σ ∧ denied σ' = denied σ ∧ console σ' = console σ ∧
           heap σ ⊆ heap σ' ∧
           (λ l, heap σ' !!! l) <$> ls = items ∧
           Forall (λ l, is_Some (heap σ' !! l)) ls.
Proof.
  revert σ. induction items as [|r rest IH]; intros σ.
  - exists [], σ. by repeat split.
  - cbn [alloc_all]. unfold bind at 1. unfold alloc at 1.
    destruct (IH (set_heap (insert (fresh (dom (heap σ))) r) σ))
      as (ls & σ' & Hrun & ? & ? & ? & ? & ? & Hsub & Hview & Hall).
    unfold bind. rewrite Hrun. unfold ret.
    eexists _, σ'. split; [reflexivity|]. repeat (split; [done|]).
    cbn [heap set_heap] in Hsub.
    assert (heap σ' !! fresh (dom (heap σ)) = Some r) as Hnew.
    { eapply lookup_weaken; [|exact Hsub]. apply lookup_insert_eq. }
    split; [|split].
    + etrans; [|exact Hsub]. apply insert_subseteq, fresh_unallocated.
    + cbn [fmap list_fmap]. f_equal; [|exact Hview].
      by apply lookup_total_correct.
    + constructor; [by eexists|done].
Qed.

Lemma loadReferences_parsed σ data items :
  files σ !! storagePath σ = Some data → storagePath σ ∉ denied σ →
  Json.parse data = Some items →
  ∃ σ', loadReferences σ = (Ok tt, σ') ∧ view σ' = items ∧ allocated σ'.
Proof.
  intros Hf Hd Hp. unfold loadReferences, try_catch, bind, gets, existsSync. simpl.
  rewrite Hf. rewrite bool_decide_eq_true_2 by eauto.
  unfold readFileSync. rewrite decide_False by done. rewrite Hf.
  unfold JSON_parse. unfold Json.parse in Hp.
  destruct (Json.value_of_text data) as [v|]; [|done]. cbn [mbind option_bind] in Hp.
  rewrite Hp.
  destruct (alloc_all_ok items σ)
    as (ls & σ' & Hrun & _ & _ & _ & _ & _ & _ & Hview & Hall).
  rewrite Hrun. unfold modify. eexists. split; [reflexivity|]. split.
  - unfold view, deref. cbn [references heap set_references]. exact Hview.
  - unfold allocated. cbn [references heap set_references]. exact Hall.
Qed.

(** The four cases of a file that is there and can be read. *)
Lemma loadReferences_cases σ data :
  files σ !! storagePath σ = Some data → storagePath σ ∉ denied σ →
  (Json.value_of_text data = None ∧
   loadReferences σ =
   (Ok tt, set_references (λ _, [])
             (set_console (λ c, JS.push c ("Failed to load references:",
                                           SyntaxError)) σ))) ∨
  (∃ v, Json.value_of_text data = Some v ∧ Json.as_references v = None ∧
        loadReferences σ = (Untyped, σ)) ∨
  (∃ items σ', Json.parse data = Some items ∧
               loadReferences σ = (Ok tt, σ') ∧ view σ' = items ∧ allocated σ').
Proof.
  intros Hf Hd. destruct (Json.value_of_text data) as [v|] eqn:Hp.
  - destruct (Json.as_references v) as [items|] eqn:Hv.
    + right. right.
      assert (Json.parse data = Some items) as Hparse
        by (unfold Json.parse; by rewrite Hp).
      destruct (loadReferences_parsed σ data items Hf Hd Hparse) as (σ' & ? & ? & ?).
      by exists items, σ'.
    + right. left. exists v. repeat (split; [done|]).
      by apply (loadReferences_untyped σ data v).
  - left. split; [done|]. by apply (loadReferences_unparsable σ data).
Qed.

(** [loadReferences] throws in no state. *)
Lemma loadReferences_never_throws σ e : (loadReferences σ).1 ≠ Throw e.
Proof.
  destruct (files σ !! storagePath σ) as [data|] eqn:Hf.
  - destruct (decide (storagePath σ ∈ denied σ)) as [Hd|Hd].
    + by rewrite (loadReferences_denied σ data).
    + destruct (loadReferences_cases σ data Hf Hd)
        as [[_ ->]|[(v & _ & _ & ->)|(items & σ' & _ & -> & _)]]; done.
  - by rewrite loadReferences_absent.
Qed.

(** C6: the load throws in no state.  When the backing file does not
    exist the manager is left as it is, with the empty array of its field
    initializer at startup.  When the file cannot be read or its content is
    not JSON, the failure is put on the console and the collection is set
    to the empty array.  The load returns normally in all these cases and
    for the JSON text of a collection; on a file whose content is JSON of
    another shape it neither throws nor logs, and the manager goes on with
    a value that is not an array of records. *)
Theorem load_is_best_effort (σ : State) :
  (∀ e, (loadReferences σ).1 ≠ Throw e) ∧
  (files σ !! storagePath σ = None → loadReferences σ = (Ok tt, σ)) ∧
  (∀ data, files σ !! storagePath σ = Some data →
     storagePath σ ∈ denied σ ∨ Json.value_of_text data = None →
     ∃ σ', loadReferences σ = (Ok tt, σ') ∧
           references σ' = [] ∧ heap σ' = heap σ ∧ files σ' = files σ ∧
           console σ'
           = console σ ++ [("Failed to load references:",
                            if decide (storagePath σ ∈ denied σ)
                            then EACCES (storagePath σ) else SyntaxError)]) ∧
  ((loadReferences σ).1 = Ok tt ∨
   ((loadReferences σ).1 = Untyped ∧
    console (loadReferences σ).2 = console σ ∧
    files (loadReferences σ).2 = files σ ∧
    ∃ data v, files σ !! storagePath σ = Some data ∧
              Json.value_of_text data = Some v ∧ Json.as_references v = None)).
Proof.
  split; [apply loadReferences_never_throws|].
  destruct (files σ !! storagePath σ) as [data|] eqn:Hf.
  - split; [done|].
    destruct (decide (storagePath σ ∈ denied σ)) as [Hd|Hd].
    + rewrite (loadReferences_denied σ data) by done. split; [|by left].
      intros ? _ _. eexists. split; [reflexivity|]. by repeat split.
    + destruct (loadReferences_cases σ data Hf Hd)
        as [[Hp ->]|[(v & Hp & Hv & ->)|(items & σ' & Hp & -> & _)]].
      * split; [|by left]. intros ? _ _. eexists. split; [reflexivity|].
        by repeat split.
      * split; [intros ? [= <-] [?|?]; [done|congruence]|]. right.
        repeat (split; [done|]). by exists data, v.
      * split; [|by left]. intros ? [= <-] [?|Hn]; [done|]. unfold Json.parse in Hp.
        by rewrite Hn in Hp.
  - rewrite loadReferences_absent by done. split; [done|]. split; [done|]. by left.
Qed.

Lemma load_is_best_effort_witness :
  loadReferences (fresh_manager Demo.path ∅ ∅ Demo.host)
  = (Ok tt, fresh_manager Demo.path ∅ ∅ Demo.host) ∧
  (∃ σ', loadReferences Demo.abc_on_corrupt_file = (Ok tt, σ') ∧
         references σ' = [] ∧
         console σ' = [("Failed to load references:", SyntaxError)]).
Proof.
  split.
  - destruct (load_is_best_effort (fresh_manager Demo.path ∅ ∅ Demo.host))
      as (_ & Habsent & _).
    apply Habsent. vm_compute. reflexivity.
  - destruct (load_is_best_effort Demo.abc_on_corrupt_file) as (_ & _ & Hcorrupt & _).
    destruct (Hcorrupt "not json") as (σ' & Hrun & Hr & _ & _ & Hc);
      [vm_compute; reflexivity|right; vm_compute; reflexivity|].
    exists σ'. split; [exact Hrun|]. split; [exact Hr|]. exact Hc.
Defined.

(** A file with the text of an empty object, of [null], of an array that
    holds [null], or of a record with a property that is a number: the
    text parses, so nothing is logged, and the manager keeps a value that
    is not an array of records. *)
Example other_json_is_kept :
  Forall (λ data,
            let run := loadReferences
                         (fresh_manager Demo.path {[ Demo.path := data ]} ∅ Demo.host) in
            run.1 = Untyped ∧ console run.2 = [])
         ["{}"; "null"; "[null]"; "[1, 2]";
          "[{" +:+ Json.quote "type" +:+ ": " +:+ Json.quote "file" +:+ ", "
               +:+ Json.quote "title" +:+ ": " +:+ Json.quote "t" +:+ ", "
               +:+ Json.quote "id" +:+ ": " +:+ Json.quote "A" +:+ ", "
               +:+ Json.quote "createdAt" +:+ ": " +:+ Json.quote "c" +:+ ", "
               +:+ Json.quote "updatedAt" +:+ ": " +:+ Json.quote "u" +:+ ", "
               +:+ Json.quote "pinned" +:+ ": 1}]"].
Proof. repeat constructor. Qed.

(** The same record without the extra property is a collection, however
    the text is laid out. *)
Example compact_text_is_loaded :
  Json.parse
    ("[{" +:+ Json.quote "type" +:+ ":" +:+ Json.quote "file" +:+ ","
          +:+ Json.quote "title" +:+ ":" +:+ Json.quote "t" +:+ ","
          +:+ Json.quote "id" +:+ ":" +:+ Json.quote "A" +:+ ","
          +:+ Json.quote "createdAt" +:+ ":" +:+ Json.quote "c" +:+ ","
          +:+ Json.quote "updatedAt" +:+ ":" +:+ Json.quote "u" +:+ "}]")
  = Some [{| id := "A"; type := TFile; title := "t"; filePath := None; snippet := None;
             createdAt := "c"; updatedAt := "u" |}].
Proof. vm_compute. reflexivity. Qed.

Example corrupt_starts_empty :
  view Demo.corrupt = [] ∧
  console Demo.corrupt = [("Failed to load references:", SyntaxError)] ∧
  files Demo.corrupt !! Demo.path = Some "not json".
Proof. vm_compute. by repeat split. Qed.

(** ** Save, then load *)

Lemma addReference_frame reference σ :
  ∃ l σ', addReference reference σ = (Ok l, σ') ∧
          storagePath σ' = storagePath σ ∧ denied σ' = denied σ.
Proof.
  unfold addReference, bind, new_Date_toISOString, Date_now,
    Math_random_toString36, alloc, modify, ret.
  rewrite saveReferences_run. eexists _, _. split; [reflexivity|].
  by rewrite saved_storagePath, saved_denied.
Qed.

Lemma run_op_frame op σ :
  ∃ σ', run_op op σ = (Ok tt, σ') ∧
        storagePath σ' = storagePath σ ∧ denied σ' = denied σ.
Proof.
  destruct op as [reference|i|i t|newOrder]; cbn [run_op].
  - destruct (addReference_frame reference σ) as (l & σ' & Hrun & ? & ?).
    exists σ'. unfold bind. by rewrite Hrun.
  - rewrite deleteReference_run. eexists. split; [done|].
    by rewrite saved_storagePath, saved_denied.
  - rewrite updateReferenceTitle_run. destruct (find_by_id σ i); eexists;
      (split; [done|]); [|done].
    by rewrite saved_storagePath, saved_denied.
  - rewrite updateOrder_run. eexists. split; [done|].
    by rewrite saved_storagePath, saved_denied.
Qed.

Lemma run_ops_frame ops σ :
  ∃ σ', run_ops ops σ = (Ok tt, σ') ∧
        storagePath σ' = storagePath σ ∧ denied σ' = denied σ.
Proof.
  revert σ. induction ops as [|op ops IH]; intros σ.
  - by exists σ.
  - destruct (run_op_frame op σ) as (σ1 & Hop & Hp & Hd).
    destruct (IH σ1) as (σ' & Hrun & Hp' & Hd').
    exists σ'. cbn [run_ops]. unfold bind. rewrite Hop, Hrun.
    split; [done|]. split; congruence.
Qed.

(** C3: after any sequence of add, delete, rename and reorder requests,
    the JSON text of the collection parses back to the same records, field
    by field, in the same order; and when the backing file can be written
    and read, saving the collection and loading it into a manager that
    starts empty gives that collection. *)
Theorem save_then_load_roundtrip (ops : list Op) (σ0 : State) :
  ∃ σ,
    run_ops ops σ0 = (Ok tt, σ) ∧
    Json.parse (Json.stringify (view σ)) = Some (view σ) ∧
    (storagePath σ0 ∉ denied σ0 →
     ∃ σ1 σ2,
       saveReferences σ = (Ok tt, σ1) ∧
       loadReferences (set_references (λ _, []) σ1) = (Ok tt, σ2) ∧
       view σ2 = view σ).
Proof.
  destruct (run_ops_frame ops σ0) as (σ & Hrun & Hp & Hd).
  exists σ. split; [done|]. split; [apply parse_stringify|].
  intros Hw. assert (storagePath σ ∉ denied σ) as Hw' by congruence.
  destruct (loadReferences_parsed (set_references (λ _, []) (saved σ))
              (Json.stringify (view σ)) (view σ)) as (σ2 & Hload & Hview & _).
  - cbn [files storagePath set_references]. rewrite saved_storagePath.
    by apply saved_file.
  - cbn [denied storagePath set_references].
    by rewrite saved_storagePath, saved_denied.
  - apply parse_stringify.
  - exists (saved σ), σ2. split; [apply saveReferences_run|]. by split.
Qed.

Lemma save_then_load_roundtrip_witness :
  ∃ σ σ1 σ2,
    run_ops [Add {| new_type := TGlobalSnippet; new_title := "foo()";
                    new_filePath := None; new_snippet := Some "foo()" |};
             Reorder ["C"; "A"]; Rename "A" "alpha"; Delete "B"] Demo.abc
    = (Ok tt, σ) ∧
    Json.parse (Json.stringify (view σ)) = Some (view σ) ∧
    saveReferences σ = (Ok tt, σ1) ∧
    loadReferences (set_references (λ _, []) σ1) = (Ok tt, σ2) ∧
    view σ2 = view σ.
Proof.
  destruct (save_then_load_roundtrip
              [Add {| new_type := TGlobalSnippet; new_title := "foo()";
                      new_filePath := None; new_snippet := Some "foo()" |};
               Reorder ["C"; "A"]; Rename "A" "alpha"; Delete "B"] Demo.abc)
    as (σ & Hrun & Hparse & Hfile).
  destruct Hfile as (σ1 & σ2 & Hsave & Hload & Hview); [by_evaluation|].
  exists σ, σ1, σ2. by repeat split.
Defined.

Example roundtrip_after_requests :
  let σ := (run_ops [Reorder ["C"; "C"]; Rename "C" "gamma"; Delete "A"] Demo.abc).2 in
  view (loadReferences (set_references (λ _, []) (saveReferences σ).2)).2 = view σ ∧
  title <$> view σ = ["gamma"; "gamma"; "b"].
Proof. vm_compute. by split. Qed.

(** The constructor is the load of a manager that starts empty, once the
    storage directory is there. *)
Lemma constructor_run (globalStoragePath : string) (σ : State) :
  globalStoragePath ∉ denied σ →
  constructor globalStoragePath σ =
  loadReferences
    (set_storagePath (path_join globalStoragePath "references.json")
       (set_references (λ _, []) σ)).
Proof.
  intros Hd. unfold constructor, bind, modify, mkdirSync.
  cbn [denied set_storagePath set_references]. by rewrite decide_False.
Qed.

(** ** The entries of the array point to objects *)

(** The default record that [deref] gives for an unallocated location is
    never read: a manager that starts empty has only allocated entries
    after its load and after every request. *)
Lemma loadReferences_allocated (σ : State) :
  allocated σ → allocated (loadReferences σ).2.
Proof.
  intros Ha. destruct (files σ !! storagePath σ) as [data|] eqn:Hf.
  - destruct (decide (storagePath σ ∈ denied σ)) as [Hd|Hd].
    + rewrite (loadReferences_denied σ data) by done. constructor.
    + destruct (loadReferences_cases σ data Hf Hd)
        as [[_ ->]|[(v & _ & _ & ->)|(items & σ' & _ & -> & _ & ?)]];
        [constructor|done|done].
  - by rewrite loadReferences_absent.
Qed.

Lemma saved_allocated (σ : State) : allocated σ → allocated (saved σ).
Proof. unfold allocated. by rewrite saved_references, saved_heap. Qed.

Lemma run_op_allocated (op : Op) (σ : State) :
  allocated σ → allocated (run_op op σ).2.
Proof.
  intros Ha. destruct op as [reference|i|i t|newOrder]; cbn [run_op].
  - unfold addReference, bind, new_Date_toISOString, Date_now,
      Math_random_toString36, alloc, modify, ret.
    rewrite saveReferences_run. cbn [snd]. apply saved_allocated.
    unfold allocated, JS.push in *. cbn [references heap set_references set_heap
      set_draws set_ticks].
    apply Forall_app. split.
    + eapply Forall_impl; [exact Ha|]. intros l Hl.
      apply lookup_insert_is_Some. destruct (decide (fresh (dom (heap σ)) = l)); auto.
    + constructor; [|done]. rewrite lookup_insert_eq. by eexists.
  - rewrite deleteReference_run. cbn [snd]. apply saved_allocated.
    unfold allocated, JS.filter in *. cbn [references heap set_references].
    rewrite filter_bool. rewrite Forall_forall in Ha. apply Forall_forall.
    intros l [_ Hl]%list_elem_of_filter. by apply Ha.
  - rewrite updateReferenceTitle_run. destruct (find_by_id σ i) as [l|]; [|done].
    cbn [snd]. apply saved_allocated.
    unfold allocated in *. cbn [references heap set_heap set_ticks].
    eapply Forall_impl; [exact Ha|]. intros l' Hl'.
    apply lookup_insert_is_Some. destruct (decide (l = l')); auto.
  - rewrite updateOrder_run. cbn [snd]. apply saved_allocated.
    unfold allocated in *. cbn [references heap set_references].
    rewrite Forall_forall in Ha. apply Forall_app. split; apply Forall_forall.
    + intros l [i [_ Hfind]]%list_elem_of_omap.
      apply find_by_id_some in Hfind as [Hl _]. by apply Ha.
    + intros l [_ Hl]%list_elem_of_filter. by apply Ha.
Qed.

Lemma run_ops_allocated (ops : list Op) (σ : State) :
  allocated σ → allocated (run_ops ops σ).2.
Proof.
  revert σ. induction ops as [|op ops IH]; intros σ Ha; [done|].
  cbn [run_ops]. unfold bind.
  destruct (run_op_frame op σ) as (σ1 & Hop & _).
  pose proof (run_op_allocated op σ Ha) as Ha1. rewrite Hop in *. by apply IH.
Qed.

(** * Properties of the scan *)

Import Locator ScanSpec.

(** ** [indexOf] finds the first occurrence *)

Lemma occurs_at_0 fragment text :
  occurs_at fragment text 0 ↔ String.prefix fragment text = true.
Proof. unfold occurs_at. symmetry. apply String.prefix_correct. Qed.

Lemma occurs_at_S fragment c text n :
  occurs_at fragment (String c text) (S n) ↔ occurs_at fragment text n.
Proof. reflexivity. Qed.

Lemma contains_cons fragment c text :
  String.prefix fragment (String c text) = false →
  contains (String c text) fragment ↔ contains text fragment.
Proof.
  intros Hp. split.
  - intros ([|n] & Hn & Ho).
    + apply occurs_at_0 in Ho. congruence.
    + exists n. cbn [String.length] in Hn. split; [lia|]. by apply occurs_at_S in Ho.
  - intros (n & Hn & Ho). exists (S n). cbn [String.length]. split; [lia|].
    by apply occurs_at_S.
Qed.

Lemma indexOfFrom_spec fragment text i :
  (contains text fragment →
   ∃ n, first_occurrence fragment text n ∧
        JS.indexOfFrom fragment text i = i + Z.of_nat n) ∧
  (¬ contains text fragment → JS.indexOfFrom fragment text i = -1).
Proof.
  revert i. induction text as [|c text IH]; intros i.
  - cbn [JS.indexOfFrom]. destruct (String.prefix fragment "") eqn:Hp.
    + split.
      * intros _. exists 0%nat. split; [|lia]. split; [by apply occurs_at_0|lia].
      * intros Hn. exfalso. apply Hn. exists 0%nat. split; [lia|]. by apply occurs_at_0.
    + split; [|done]. intros ([|n] & Hn & Ho).
      * apply occurs_at_0 in Ho. congruence.
      * cbn [String.length] in Hn. lia.
  - cbn [JS.indexOfFrom]. destruct (String.prefix fragment (String c text)) eqn:Hp.
    + split.
      * intros _. exists 0%nat. split; [|lia]. split; [by apply occurs_at_0|lia].
      * intros Hn. exfalso. apply Hn. exists 0%nat. split; [lia|]. by apply occurs_at_0.
    + destruct (IH (i + 1)) as [IHyes IHno]. split.
      * intros Hc%contains_cons; [|done].
        destruct (IHyes Hc) as (n & [Ho Hfirst] & Hi).
        exists (S n). split; [|lia]. split; [by apply occurs_at_S|].
        intros [|m] Hm.
        -- intros Ho'%occurs_at_0. congruence.
        -- intros Ho'%occurs_at_S. apply (Hfirst m); [lia|done].
      * intros Hn. apply IHno. intros Hc. apply Hn. by apply contains_cons.
Qed.

Lemma indexOf_found text fragment :
  contains text fragment →
  ∃ n, first_occurrence fragment text n ∧ JS.indexOf text fragment = Z.of_nat n.
Proof.
  intros Hc. destruct (proj1 (indexOfFrom_spec fragment text 0) Hc) as (n & ? & ?).
  exists n. split; [done|]. unfold JS.indexOf. lia.
Qed.

Lemma indexOf_missing text fragment :
  ¬ contains text fragment → JS.indexOf text fragment = -1.
Proof. apply indexOfFrom_spec. Qed.

(** ** The loop *)

Lemma after_nil σ : after σ [] = σ.
Proof.
  destruct σ as [fs w o c]. unfold after. cbn [workspaceFiles workspace opened console].
  rewrite filter_nil. cbn [fmap list_fmap]. by rewrite !app_nil_r.
Qed.

Lemma after_app σ a b : after (after σ a) b = after σ (a ++ b).
Proof.
  unfold after. cbn [workspace opened console].
  by rewrite filter_app, fmap_app, !app_assoc.
Qed.

(** A member that cannot be opened, or whose text lacks the fragment,
    leaves the variables as they are and the loop goes on. *)
Lemma iteration_miss snippet file v σ :
  ¬ holds σ snippet file →
  iteration snippet file v σ = (Ok (v, false), after σ [file]).
Proof.
  unfold holds, iteration, try_catch, bind, openTextDocument, after.
  intros Hn. rewrite filter_cons, filter_nil.
  destruct (workspace σ file) as [doc|] eqn:Hw.
  - rewrite (indexOf_missing _ _ Hn). cbn [negb Z.eqb Pos.eqb].
    unfold ret. rewrite decide_False by done.
    cbn [fmap list_fmap workspace opened console]. by rewrite app_nil_r.
  - rewrite decide_True by done. reflexivity.
Qed.

(** A member whose text contains the fragment is counted and recorded;
    the loop breaks when the count exceeds one. *)
Lemma iteration_hit snippet file doc v σ :
  workspace σ file = Some doc → contains (getText doc) snippet →
  iteration snippet file v σ =
  (Ok (hit snippet doc file v, matchCount v + 1 >? 1), after σ [file]).
Proof.
  intros Hw Hc.
  unfold iteration, try_catch, bind, openTextDocument, after.
  rewrite filter_cons, filter_nil, Hw.
  destruct (indexOf_found _ _ Hc) as (n & _ & Hi).
  assert (negb (JS.indexOf (getText doc) snippet =? -1) = true) as ->.
  { rewrite Hi. apply negb_true_iff, Z.eqb_neq. lia. }
  rewrite decide_False by done.
  cbn [fmap list_fmap workspace opened console matchCount]. rewrite app_nil_r.
  fold (hit snippet doc file v).
  destruct (matchCount v + 1 >? 1); reflexivity.
Qed.

Lemma scan_skip snippet pre post v σ :
  Forall (λ f, ¬ holds σ snippet f) pre →
  scan snippet (pre ++ post) v σ = scan snippet post v (after σ pre).
Proof.
  revert σ. induction pre as [|f pre IH]; intros σ Hpre.
  - by rewrite after_nil.
  - apply Forall_cons in Hpre as [Hf Hpre].
    cbn [app scan]. unfold bind at 1. rewrite iteration_miss by done.
    cbn [fst snd]. rewrite IH by done.
    by rewrite after_app.
Qed.

Lemma scan_miss snippet files v σ :
  Forall (λ f, ¬ holds σ snippet f) files →
  scan snippet files v σ = (Ok v, after σ files).
Proof.
  intros Hn. rewrite <- (app_nil_r files) at 1. by rewrite scan_skip.
Qed.

Lemma scan_hit snippet file doc post v σ :
  workspace σ file = Some doc → contains (getText doc) snippet →
  scan snippet (file :: post) v σ =
  if matchCount v + 1 >? 1 then (Ok (hit snippet doc file v), after σ [file])
  else scan snippet post (hit snippet doc file v) (after σ [file]).
Proof.
  intros Hw Hc. cbn [scan]. unfold bind at 1.
  rewrite (iteration_hit snippet file doc) by done. cbn [fst snd].
  destruct (matchCount v + 1 >? 1); reflexivity.
Qed.

(** A list either has no element with a decidable property, or splits at
    the first one that has it. *)
Lemma first_split {A} (P : A → Prop) `{!∀ x, Decision (P x)} (l : list A) :
  Forall (λ x, ¬ P x) l ∨
  ∃ pre x post, l = pre ++ x :: post ∧ Forall (λ x, ¬ P x) pre ∧ P x.
Proof.
  induction l as [|x l IH]; [by left|].
  destruct (decide (P x)) as [Hx|Hx].
  - right. exists [], x, l. by repeat split.
  - destruct IH as [Hn|(pre & y & post & -> & Hpre & Hy)].
    + left. by constructor.
    + right. exists (x :: pre), y, post. repeat split; [|done]. by constructor.
Qed.

Lemma filter_none {A} (P : A → Prop) `{!∀ x, Decision (P x)} (l : list A) :
  Forall (λ x, ¬ P x) l → filter P l = [].
Proof.
  induction 1 as [|x l Hx _ IH]; [done|].
  by rewrite filter_cons, decide_False.
Qed.

Lemma holds_doc σ snippet file :
  holds σ snippet file →
  ∃ doc, workspace σ file = Some doc ∧ contains (getText doc) snippet.
Proof. unfold holds. destruct (workspace σ file) as [doc|]; [eauto|done]. Qed.

(** The three ways the loop can run, by the members that hold the
    fragment: none, one, or a second one at which the loop breaks. *)
Lemma scan_cases snippet files σ :
  (Forall (λ f, ¬ holds σ snippet f) files ∧
   scan snippet files initial σ = (Ok initial, after σ files)) ∨
  (∃ pre f post doc,
     files = pre ++ f :: post ∧
     Forall (λ f, ¬ holds σ snippet f) pre ∧
     Forall (λ f, ¬ holds σ snippet f) post ∧
     workspace σ f = Some doc ∧ contains (getText doc) snippet ∧
     scan snippet files initial σ = (Ok (hit snippet doc f initial), after σ files)) ∨
  (∃ pre f1 mid f2 post doc1 doc2,
     files = pre ++ f1 :: mid ++ f2 :: post ∧
     Forall (λ f, ¬ holds σ snippet f) pre ∧
     Forall (λ f, ¬ holds σ snippet f) mid ∧
     workspace σ f1 = Some doc1 ∧ contains (getText doc1) snippet ∧
     workspace σ f2 = Some doc2 ∧ contains (getText doc2) snippet ∧
     scan snippet files initial σ =
     (Ok (hit snippet doc2 f2 (hit snippet doc1 f1 initial)),
      after σ (pre ++ f1 :: mid ++ [f2]))).
Proof.
  destruct (first_split (holds σ snippet) files)
    as [Hn|(pre & f1 & post1 & -> & Hpre & Hf1)].
  { left. split; [done|]. by apply scan_miss. }
  right. apply holds_doc in Hf1 as (doc1 & Hw1 & Hc1).
  rewrite (scan_skip _ pre) by done.
  rewrite (scan_hit _ f1 doc1) by done.
  change (matchCount initial + 1 >? 1) with false. cbv iota.
  rewrite after_app.
  destruct (first_split (holds σ snippet) post1)
    as [Hn|(mid & f2 & post2 & -> & Hmid & Hf2)].
  - left. exists pre, f1, post1, doc1. repeat (split; [done|]).
    rewrite scan_miss by done. by rewrite after_app, <- app_assoc.
  - right. apply holds_doc in Hf2 as (doc2 & Hw2 & Hc2).
    exists pre, f1, mid, f2, post2, doc1, doc2. repeat (split; [done|]).
    rewrite (scan_skip _ mid) by done.
    rewrite (scan_hit _ f2 doc2) by done.
    change (matchCount (hit snippet doc1 f1 initial) + 1 >? 1) with true. cbv iota.
    by rewrite !after_app, <- !app_assoc.
Qed.

Lemma holds_intro σ snippet file doc :
  workspace σ file = Some doc → contains (getText doc) snippet → holds σ snippet file.
Proof. intros Hw Hc. unfold holds. by rewrite Hw. Qed.

Ltac list_norm :=
  repeat (rewrite <- app_assoc || rewrite <- app_comm_cons || rewrite app_nil_l).

(** The result of the loop and the branch, and the members opened. *)
Lemma scan_run snippet files σ :
  ∃ scanned rest,
    files = scanned ++ rest ∧
    (v <- scan snippet files initial;; ret (classify v)) σ =
    (Ok (expected σ snippet (filter (holds σ snippet) files)), after σ scanned) ∧
    match filter (holds σ snippet) files with
    | [] | [_] => rest = []
    | _ :: _ :: _ =>
      ∃ seen file, scanned = seen ++ [file] ∧ holds σ snippet file ∧
                   length (filter (holds σ snippet) seen) = 1%nat
    end.
Proof.
  unfold bind, ret.
  destruct (scan_cases snippet files σ)
    as [[Hn Hrun]
       |[(pre & f & post & doc & -> & Hpre & Hpost & Hw & Hc & Hrun)
        |(pre & f1 & mid & f2 & post & doc1 & doc2 & -> & Hpre & Hmid
          & Hw1 & Hc1 & Hw2 & Hc2 & Hrun)]];
    rewrite Hrun.
  - exists files, []. rewrite app_nil_r, (filter_none _ _ Hn).
    split; [done|]. split; [reflexivity|done].
  - exists (pre ++ f :: post), []. rewrite app_nil_r.
    rewrite filter_app, filter_cons, (filter_none _ _ Hpre), (filter_none _ _ Hpost).
    rewrite decide_True by by eapply holds_intro.
    cbn [app expected]. rewrite Hw. split; [done|]. split; [reflexivity|done].
  - exists (pre ++ f1 :: mid ++ [f2]), post.
    rewrite !filter_app, !filter_cons, !filter_app, !filter_cons.
    rewrite (filter_none _ _ Hpre), (filter_none _ _ Hmid).
    rewrite !decide_True by by eapply holds_intro.
    cbn [app expected]. split; [by list_norm|]. split; [reflexivity|].
    exists (pre ++ f1 :: mid), f2. split; [by list_norm|].
    split; [by eapply holds_intro|].
    rewrite filter_app, filter_cons, (filter_none _ _ Hpre), (filter_none _ _ Hmid).
    rewrite decide_True by by eapply holds_intro. reflexivity.
Qed.

Lemma jumpToGlobalSnippet_run snippet σ :
  ∃ scanned rest,
    workspaceFiles σ = scanned ++ rest ∧
    jumpToGlobalSnippet snippet σ =
    (Ok (expected σ snippet (filter (holds σ snippet) (workspaceFiles σ))),
     after σ scanned) ∧
    match filter (holds σ snippet) (workspaceFiles σ) with
    | [] | [_] => rest = []
    | _ :: _ :: _ =>
      ∃ seen file, scanned = seen ++ [file] ∧ holds σ snippet file ∧
                   length (filter (holds σ snippet) seen) = 1%nat
    end.
Proof. apply (scan_run snippet (workspaceFiles σ) σ). Qed.

(** C2: on the corpus that [findFiles] returns, no member with the
    fragment gives [NoMatch]; exactly one gives [UniqueMatch] with that
    member and the positions of the offsets where the first occurrence of
    the fragment starts and ends; two or more give [AmbiguousMatch]. *)
Theorem scan_classifies (snippet : string) (σ : State) :
  ∃ out σ',
    jumpToGlobalSnippet snippet σ = (Ok out, σ') ∧
    match filter (holds σ snippet) (workspaceFiles σ) with
    | [] => out = NoMatch
    | [file] =>
      ∃ doc n,
        workspace σ file = Some doc ∧
        first_occurrence snippet (getText doc) n ∧
        out = UniqueMatch file (positionAt doc (Z.of_nat n))
                (positionAt doc (Z.of_nat n + JS.length snippet))
    | _ :: _ :: _ => out = AmbiguousMatch
    end.
Proof.
  destruct (jumpToGlobalSnippet_run snippet σ) as (scanned & rest & _ & Hrun & _).
  eexists _, _. split; [exact Hrun|].
  destruct (filter (holds σ snippet) (workspaceFiles σ)) as [|file [|file' ms]] eqn:Hms;
    [reflexivity| |reflexivity].
  assert (holds σ snippet file) as Hh.
  { assert (file ∈ filter (holds σ snippet) (workspaceFiles σ)) as Hin
      by (rewrite Hms; left).
    by apply list_elem_of_filter in Hin as [? _]. }
  apply holds_doc in Hh as (doc & Hw & Hc).
  destruct (indexOf_found _ _ Hc) as (n & Hfirst & Hi).
  exists doc, n. split; [done|]. split; [done|].
  cbn [expected]. rewrite Hw. unfold hit. rewrite Hi. reflexivity.
Qed.

(** C7, as the code has it: the members are opened in the order of the
    corpus, each once, up to the second member that holds the fragment;
    with fewer than two such members every member is opened once. *)
Theorem scan_opens_prefix (snippet : string) (σ : State) :
  ∃ out σ' scanned rest,
    jumpToGlobalSnippet snippet σ = (Ok out, σ') ∧
    workspaceFiles σ = scanned ++ rest ∧
    opened σ' = opened σ ++ scanned ∧
    match filter (holds σ snippet) (workspaceFiles σ) with
    | [] | [_] => rest = []
    | _ :: _ :: _ =>
      ∃ seen file, scanned = seen ++ [file] ∧ holds σ snippet file ∧
                   length (filter (holds σ snippet) seen) = 1%nat
    end.
Proof.
  destruct (jumpToGlobalSnippet_run snippet σ)
    as (scanned & rest & Hfiles & Hrun & Hcases).
  eexists _, _, scanned, rest. split; [exact Hrun|]. by repeat split.
Qed.

(** C8: the call returns normally in every state.  A member that cannot
    be opened does not stop the scan: the members are opened in the order
    of the corpus up to the second member that holds the fragment, all of
    them when fewer than two do, and each opened member that cannot be
    read leaves one entry on the console.  Such a member counts as one
    without the fragment: the result is the branch given by the members
    that can be opened and contain it, and so it is the result on the
    corpus without the unreadable members. *)
Theorem unreadable_members_are_skipped (snippet : string) (σ : State) :
  ∃ out σ' scanned rest,
    jumpToGlobalSnippet snippet σ = (Ok out, σ') ∧
    workspaceFiles σ = scanned ++ rest ∧
    match filter (holds σ snippet) (workspaceFiles σ) with
    | [] | [_] => rest = []
    | _ :: _ :: _ =>
      ∃ seen file, scanned = seen ++ [file] ∧ holds σ snippet file ∧
                   length (filter (holds σ snippet) seen) = 1%nat
    end ∧
    opened σ' = opened σ ++ scanned ∧
    console σ' = console σ ++ (log_entry <$> filter (λ f, workspace σ f = None) scanned) ∧
    out = expected σ snippet (filter (holds σ snippet) (workspaceFiles σ)) ∧
    (jumpToGlobalSnippet snippet
       (with_files (filter (λ f, is_Some (workspace σ f)) (workspaceFiles σ)) σ)).1
    = Ok out.
Proof.
  destruct (jumpToGlobalSnippet_run snippet σ) as (scanned & rest & Hfiles & Hrun & Hcases).
  eexists _, _, scanned, rest. split; [exact Hrun|]. repeat (split; [done|]).
  destruct (jumpToGlobalSnippet_run snippet
              (with_files (filter (λ f, is_Some (workspace σ f)) (workspaceFiles σ)) σ))
    as (? & ? & _ & -> & _).
  cbn [fst workspaceFiles with_files].
  change (holds (with_files ?fs σ)) with (holds σ).
  change (expected (with_files ?fs σ)) with (expected σ).
  do 2 f_equal. rewrite list_filter_filter. apply list_filter_iff.
  intros f. split; [tauto|]. intros Hf. split; [done|].
  apply holds_doc in Hf as (doc & -> & _). eauto.
Qed.

Example scan_unique :
  (jumpToGlobalSnippet "foo()" (sample ["x.ts"; "d.ts"; "b.ts"; "y.ts"])).1
  = Ok (UniqueMatch "b.ts" {| line := 0; character := 0 |}
                           {| line := 0; character := 5 |}).
Proof. vm_compute. reflexivity. Qed.

Example scan_none :
  (jumpToGlobalSnippet "foo()" (sample ["x.ts"; "d.ts"])).1 = Ok NoMatch ∧
  (jumpToGlobalSnippet "foo()" (sample [])).1 = Ok NoMatch.
Proof. vm_compute. by split. Qed.

Example scan_skips_unreadable :
  let run := jumpToGlobalSnippet "foo()" (sample ["x.ts"; "a.ts"; "y.ts"; "d.ts"]) in
  run.1 = (jumpToGlobalSnippet "foo()" (sample ["a.ts"; "d.ts"])).1 ∧
  opened run.2 = ["x.ts"; "a.ts"; "y.ts"; "d.ts"] ∧
  console run.2 = [log_entry "x.ts"; log_entry "y.ts"].
Proof. vm_compute. by repeat split. Qed.

(** C7 as stated fails on a corpus with three members that hold the
    fragment: the loop breaks at the second and the third is never
    opened. *)
Lemma scan_stops_at_second_match :
  let run := jumpToGlobalSnippet "foo()" (sample ["a.ts"; "b.ts"; "c.ts"]) in
  run.1 = Ok AmbiguousMatch ∧
  opened run.2 = ["a.ts"; "b.ts"] ∧
  ("c.ts" ∉ opened run.2).
Proof.
  cbv zeta. split; [vm_compute; reflexivity|].
  split; [vm_compute; reflexivity|]. by_evaluation.
Qed.

(** ** The order of the files *)

(** The branch taken does not depend on the order in which [findFiles]
    lists the files; the order only decides which files are opened. *)
Theorem outcome_ignores_corpus_order (snippet : string) (files1 files2 : list Uri)
    (σ : State) :
  files1 ≡ₚ files2 →
  (jumpToGlobalSnippet snippet (with_files files1 σ)).1
  = (jumpToGlobalSnippet snippet (with_files files2 σ)).1.
Proof.
  intros Hperm.
  destruct (jumpToGlobalSnippet_run snippet (with_files files1 σ)) as (? & ? & _ & -> & _).
  destruct (jumpToGlobalSnippet_run snippet (with_files files2 σ)) as (? & ? & _ & -> & _).
  cbn [fst workspaceFiles with_files].
  change (holds (with_files ?fs σ)) with (holds σ).
  change (expected (with_files ?fs σ)) with (expected σ).
  f_equal.
  assert (filter (holds σ snippet) files1 ≡ₚ filter (holds σ snippet) files2) as Hf
    by by rewrite Hperm.
  destruct (filter (holds σ snippet) files1) as [|a [|a' l1]];
    destruct (filter (holds σ snippet) files2) as [|b [|b' l2]];
    try reflexivity;
    try (apply Permutation_length in Hf; cbn [length] in Hf; lia).
  by apply Permutation_singleton_l in Hf as [= ->].
Qed.

Lemma outcome_ignores_corpus_order_witness :
  (jumpToGlobalSnippet "foo()" (with_files ["d.ts"; "b.ts"; "x.ts"] (sample []))).1
  = (jumpToGlobalSnippet "foo()" (with_files ["x.ts"; "b.ts"; "d.ts"] (sample []))).1.
Proof.
  apply (outcome_ignores_corpus_order "foo()" ["d.ts"; "b.ts"; "x.ts"]
           ["x.ts"; "b.ts"; "d.ts"] (sample [])).
  apply NoDup_Permutation; [by_evaluation|by_evaluation|].
  intros x. rewrite !elem_of_cons, !elem_of_nil. tauto.
Defined.

(** * The requests in sequence *)

Section StoreFacts.
Import Store.

Lemma addReference_run reference σ :
  addReference reference σ =
  (Ok (fresh (dom (heap σ))),
   saved (set_references (λ refs, JS.push refs (fresh (dom (heap σ))))
            (set_heap (insert (fresh (dom (heap σ))) (new_record reference σ))
               (set_draws S (set_ticks S (set_ticks S σ)))))).
Proof.
  unfold addReference, bind, new_Date_toISOString, Date_now,
    Math_random_toString36, alloc, modify, ret.
  by rewrite saveReferences_run.
Qed.

Lemma memory_saved σ : memory (saved σ) = memory σ.
Proof. unfold memory, saved. by case_decide. Qed.

Lemma run_op_memory op σ1 σ2 :
  memory σ1 = memory σ2 →
  memory (run_op op σ1).2 = memory (run_op op σ2).2.
Proof.
  destruct σ1 as [r1 p1 h1 f1 d1 c1 o1 t1 w1], σ2 as [r2 p2 h2 f2 d2 c2 o2 t2 w2].
  intros Hm. unfold memory in Hm. cbn [references heap host ticks draws] in Hm.
  injection Hm as -> -> -> -> ->.
  destruct op as [reference|i|i t|newOrder]; cbn [run_op].
  - unfold bind, ret. rewrite !addReference_run. cbn [fst snd].
    by rewrite !memory_saved.
  - rewrite !deleteReference_run. cbn [fst snd]. by rewrite !memory_saved.
  - rewrite !updateReferenceTitle_run. unfold find_by_id, deref.
    cbn [references heap host ticks].
    destruct (JS.find _ r2); cbn [fst snd]; [|done].
    by rewrite !memory_saved.
  - rewrite !updateOrder_run. cbn [fst snd]. by rewrite !memory_saved.
Qed.

Lemma run_ops_memory ops σ1 σ2 :
  memory σ1 = memory σ2 → memory (run_ops ops σ1).2 = memory (run_ops ops σ2).2.
Proof.
  revert σ1 σ2. induction ops as [|op ops IH]; intros s1 s2 Hm; [done|].
  cbn [run_ops]. unfold bind.
  destruct (run_op_frame op s1) as (s1' & Hop1 & _).
  destruct (run_op_frame op s2) as (s2' & Hop2 & _).
  pose proof (run_op_memory op s1 s2 Hm) as Hm'.
  rewrite Hop1, Hop2 in *. by apply IH.
Qed.

(** What is in memory after a sequence of requests, and the object that an
    add then returns, depend only on what was in memory before: the
    requests never read the file system, and a failed write changes
    nothing in memory. *)
Theorem requests_ignore_file_system (ops : list Op) (reference : NewReference)
    (σ1 σ2 : State) :
  memory σ1 = memory σ2 →
  memory (run_ops ops σ1).2 = memory (run_ops ops σ2).2 ∧
  view (run_ops ops σ1).2 = view (run_ops ops σ2).2 ∧
  ∃ l, (addReference reference (run_ops ops σ1).2).1 = Ok l ∧
       (addReference reference (run_ops ops σ2).2).1 = Ok l ∧
       deref (addReference reference (run_ops ops σ1).2).2 l
       = deref (addReference reference (run_ops ops σ2).2).2 l.
Proof.
  intros Hm. pose proof (run_ops_memory ops σ1 σ2 Hm) as Hm'.
  split; [done|]. rewrite !addReference_run. cbn [fst snd].
  destruct (run_ops ops σ1).2 as [r1 p1 h1 f1 d1 c1 o1 t1 w1].
  destruct (run_ops ops σ2).2 as [r2 p2 h2 f2 d2 c2 o2 t2 w2].
  unfold memory in Hm'. cbn [references heap host ticks draws] in Hm'.
  injection Hm' as -> -> -> -> ->. split; [done|].
  eexists. split; [reflexivity|]. split; [reflexivity|].
  unfold deref. by rewrite !saved_heap.
Qed.

Lemma requests_ignore_file_system_witness :
  let σ1 := Demo.abc in
  let σ2 := set_files (λ _, ∅) (Demo.abc) in
  view (run_ops [Delete "A"; Rename "B" "beta"] σ1).2
  = view (run_ops [Delete "A"; Rename "B" "beta"] σ2).2.
Proof.
  cbv zeta.
  apply (requests_ignore_file_system [Delete "A"; Rename "B" "beta"]
           {| new_type := TComment; new_title := "note";
              new_filePath := None; new_snippet := None |}
           Demo.abc (set_files (λ _, ∅) Demo.abc)).
  reflexivity.
Defined.

(** ** A backing file that cannot be written *)

Lemma saved_denied_files σ :
  storagePath σ ∈ denied σ →
  files (saved σ) = files σ ∧
  console (saved σ)
  = console σ ++ [("Failed to save references:", EACCES (storagePath σ))].
Proof. intros Hd. unfold saved. by rewrite decide_True. Qed.

Lemma run_op_unwritable op σ :
  storagePath σ ∈ denied σ →
  ∃ σ', run_op op σ = (Ok tt, σ') ∧
        storagePath σ' = storagePath σ ∧ denied σ' = denied σ ∧
        files σ' = files σ ∧
        console σ'
        = console σ ++ replicate (saves [op] σ)
                         ("Failed to save references:", EACCES (storagePath σ)).
Proof.
  intros Hd.
  assert (∀ s, storagePath s = storagePath σ → denied s = denied σ →
               files s = files σ → console s = console σ →
               storagePath (saved s) = storagePath σ ∧ denied (saved s) = denied σ ∧
               files (saved s) = files σ ∧
               console (saved s)
               = console σ ++ replicate 1 ("Failed to save references:", EACCES (storagePath σ)))
    as Hs.
  { intros s Hp Hde Hf Hc. rewrite saved_storagePath, saved_denied.
    destruct (saved_denied_files s) as [-> ->]; [by rewrite Hp, Hde|].
    by rewrite Hp, Hc. }
  destruct op as [reference|i|i t|newOrder]; cbn [run_op saves]; rewrite ?Nat.add_0_r.
  - unfold bind, ret. rewrite addReference_run. eexists.
    split; [reflexivity|]. by apply Hs.
  - rewrite deleteReference_run. eexists. split; [reflexivity|]. by apply Hs.
  - rewrite updateReferenceTitle_run. destruct (find_by_id σ i) as [l|] eqn:Hfind.
    + rewrite decide_True; [eexists; split; [reflexivity|]; by apply Hs|].
      destruct (decide (i ∈ ids σ)) as [|Hni]; [done|].
      apply find_by_id_none in Hni. congruence.
    + rewrite decide_False by by apply find_by_id_none.
      exists σ. cbn [replicate]. by rewrite app_nil_r.
  - rewrite updateOrder_run. eexists. split; [reflexivity|]. by apply Hs.
Qed.

(** When the backing file cannot be written, every request still returns
    normally and the file system stays as it was; the console gets one
    entry for each request that saves: every add, delete and reorder, and
    every rename of an id that a record has at that moment. *)
Theorem unwritable_file_is_only_logged (ops : list Op) (σ : State) :
  storagePath σ ∈ denied σ →
  ∃ σ', run_ops ops σ = (Ok tt, σ') ∧
        files σ' = files σ ∧
        console σ'
        = console σ ++ replicate (saves ops σ)
                         ("Failed to save references:", EACCES (storagePath σ)).
Proof.
  revert σ. induction ops as [|op ops IH]; intros σ Hd.
  - exists σ. cbn [saves replicate]. rewrite app_nil_r. by repeat split.
  - destruct (run_op_unwritable op σ Hd) as (σ1 & Hop & Hp & Hde & Hf & Hc).
    destruct (IH σ1) as (σ' & Hrun & Hf' & Hc'); [by rewrite Hp, Hde|].
    exists σ'. cbn [run_ops]. unfold bind. rewrite Hop, Hrun.
    split; [done|]. split; [congruence|].
    rewrite Hc', Hc, Hp. cbn [saves] in *. rewrite Hop. cbn [snd].
    rewrite Nat.add_0_r, replicate_add. by rewrite app_assoc.
Qed.

Lemma unwritable_file_is_only_logged_witness :
  ∃ σ', run_ops [Delete "A"; Rename "Z" "zeta"; Rename "B" "beta"] readonly_abc
        = (Ok tt, σ') ∧
        files σ' = files readonly_abc ∧
        console σ'
        = [("Failed to save references:", EACCES Demo.path);
           ("Failed to save references:", EACCES Demo.path)].
Proof.
  destruct (unwritable_file_is_only_logged
              [Delete "A"; Rename "Z" "zeta"; Rename "B" "beta"] readonly_abc)
    as (σ' & Hrun & Hfiles & Hconsole); [by_evaluation|].
  exists σ'. split; [exact Hrun|]. split; [exact Hfiles|]. exact Hconsole.
Defined.

(** ** The file follows the collection *)








(** ** How the requests compose *)

Lemma deleted_refs i σ :
  references (deleteReference i σ).2
  = filter (λ l, id (deref σ l) ≠ i) (references σ) ∧
  heap (deleteReference i σ).2 = heap σ.
Proof.
  rewrite deleteReference_run. cbn [snd]. rewrite saved_references, saved_heap.
  cbn [references set_references heap]. split; [|done].
  unfold JS.filter. rewrite filter_bool. apply list_filter_iff.
  intros l. rewrite negb_true_iff. apply String.eqb_neq.
Qed.

(** Deleting an id twice is deleting it once, and two deletes give the
    same collection in either order. *)
Theorem delete_idempotent_and_commutes (i j : string) (σ : State) :
  let once := (deleteReference i σ).2 in
  references (deleteReference i once).2 = references once ∧
  heap (deleteReference i once).2 = heap once ∧
  references (deleteReference j once).2
  = references (deleteReference i (deleteReference j σ).2).2 ∧
  heap (deleteReference j once).2 = heap (deleteReference i (deleteReference j σ).2).2.
Proof.
  intros once. unfold once.
  destruct (deleted_refs i σ) as [Ri Hi]. destruct (deleted_refs j σ) as [Rj Hj].
  destruct (deleted_refs i (deleteReference i σ).2) as [Rii Hii].
  destruct (deleted_refs j (deleteReference i σ).2) as [Rji Hji].
  destruct (deleted_refs i (deleteReference j σ).2) as [Rij Hij].
  rewrite Rii, Hii, Rji, Hji, Rij, Hij. unfold deref.
  rewrite Hi, Hj, Ri, Rj, !list_filter_filter.
  split; [|split; [done|split; [|done]]].
  - apply list_filter_iff. tauto.
  - apply list_filter_iff. tauto.
Qed.

Lemma filter_all {A} (P : A → Prop) `{!∀ x, Decision (P x)} (l : list A) :
  Forall P l → filter P l = l.
Proof.
  induction 1 as [|x l Hx _ IH]; [done|].
  by rewrite filter_cons, decide_True, IH.
Qed.

(** Adding a record and then deleting the id it got gives back the
    collection as it was, when no record had that id. *)
Theorem add_then_delete_restores (reference : NewReference) (σ : State) :
  allocated σ →
  id (new_record reference σ) ∉ ids σ →
  ∃ l σ1 σ2,
    addReference reference σ = (Ok l, σ1) ∧
    deleteReference (id (deref σ1 l)) σ1 = (Ok tt, σ2) ∧
    view σ2 = view σ.
Proof.
  intros Ha Hfresh. rewrite addReference_run.
  set (l := fresh (dom (heap σ))).
  set (σa := set_references (λ refs, JS.push refs l)
               (set_heap (insert l (new_record reference σ))
                  (set_draws S (set_ticks S (set_ticks S σ))))).
  assert (deref (saved σa) l = new_record reference σ) as Hnew.
  { unfold deref. rewrite saved_heap. apply lookup_total_insert_eq. }
  eexists l, (saved σa), _. split; [reflexivity|]. rewrite Hnew.
  split; [apply deleteReference_run|].
  rewrite deleted_view, saved_view.
  unfold view, deref, σa, JS.push. cbn [references heap set_references set_heap
    set_draws set_ticks].
  rewrite fmap_app, filter_app. cbn [fmap list_fmap].
  rewrite lookup_total_insert_eq, filter_cons, decide_False, filter_nil, app_nil_r
    by (by intros ?).
  assert ((λ l', <[l:=new_record reference σ]> (heap σ) !!! l')
            <$> references σ = (λ l', heap σ !!! l') <$> references σ) as ->.
  { apply Forall_fmap_ext_1. eapply Forall_impl; [exact Ha|].
    intros l' [r Hl]. cbn beta. rewrite lookup_total_insert_ne; [done|].
    intros <-. unfold l in Hl. by rewrite fresh_unallocated in Hl. }
  apply filter_all. apply Forall_forall. intros r Hr Heq. apply Hfresh.
  unfold ids, view, deref. rewrite <- Heq. by apply list_elem_of_fmap_2.
Qed.

Lemma add_then_delete_restores_witness :
  ∃ l σ1 σ2,
    addReference {| new_type := TComment; new_title := "note";
                    new_filePath := None; new_snippet := None |} Demo.abc = (Ok l, σ1) ∧
    deleteReference (id (deref σ1 l)) σ1 = (Ok tt, σ2) ∧
    view σ2 = view Demo.abc.
Proof.
  apply (add_then_delete_restores _ Demo.abc).
  - repeat constructor; vm_compute; eauto.
  - by_evaluation.
Defined.

Lemma reordered_refs newOrder σ :
  references (updateOrder newOrder σ).2
  = omap (find_by_id σ) newOrder
    ++ filter (λ l, id (deref σ l) ∉ newOrder) (references σ) ∧
  heap (updateOrder newOrder σ).2 = heap σ.
Proof.
  rewrite updateOrder_run. cbn [snd]. by rewrite saved_references, saved_heap.
Qed.

(** A reorder request that lists the ids as they stand changes nothing,
    when no two distinct records share an id. *)
Theorem reorder_by_current_order (σ : State) :
  ids_identify σ →
  references (updateOrder (ids σ) σ).2 = references σ ∧
  heap (updateOrder (ids σ) σ).2 = heap σ.
Proof.
  intros Huniq. destruct (reordered_refs (ids σ) σ) as [-> ->]. split; [|done].
  assert (filter (λ l, id (deref σ l) ∉ ids σ) (references σ) = []) as ->.
  { apply filter_none. apply Forall_forall. intros l Hl Hni. apply Hni.
    unfold ids, view. rewrite <- list_fmap_compose. by apply list_elem_of_fmap_2'
      with (x := l). }
  rewrite app_nil_r. unfold ids, view. rewrite <- list_fmap_compose.
  assert (∀ ls, ls ⊆ references σ →
            omap (find_by_id σ) ((id ∘ deref σ) <$> ls) = ls) as Hall.
  { induction ls as [|l ls IH]; intros Hsub; [done|].
    cbn [fmap list_fmap omap list_omap]. unfold compose at 1.
    rewrite find_by_id_first by (done || apply Hsub; left).
    f_equal. apply IH. intros x Hx. apply Hsub. by right. }
  by apply Hall.
Qed.

Lemma reorder_by_current_order_witness :
  references (updateOrder (ids Demo.abc) Demo.abc).2 = references Demo.abc ∧
  heap (updateOrder (ids Demo.abc) Demo.abc).2 = heap Demo.abc.
Proof. apply (reorder_by_current_order Demo.abc). by_evaluation. Defined.

(** A reorder request without repeated ids, on a store without repeated
    ids, only permutes the records. *)
Theorem reorder_permutes (newOrder : list string) (σ : State) :
  NoDup (ids σ) → NoDup newOrder →
  references (updateOrder newOrder σ).2 ≡ₚ references σ ∧
  view (updateOrder newOrder σ).2 ≡ₚ view σ.
Proof.
  intros Hids Hreq. destruct (reordered_refs newOrder σ) as [Hr Hh].
  assert (references (updateOrder newOrder σ).2 ≡ₚ references σ) as Hperm.
  { rewrite Hr.
    assert (NoDup (references σ)) as Hrefs.
    { unfold ids, view in Hids. rewrite <- list_fmap_compose in Hids.
      by apply NoDup_fmap_1 in Hids. }
    assert (ids_identify σ) as Huniq.
    { intros l1 l2 H1 H2 Heq. unfold ids, view in Hids.
      rewrite <- list_fmap_compose in Hids.
      apply list_elem_of_lookup in H1 as [n1 H1]. apply list_elem_of_lookup in H2 as [n2 H2].
      assert (n1 = n2) as ->; [|congruence].
      eapply NoDup_lookup; [exact Hids| |];
        rewrite list_lookup_fmap; [rewrite H1|rewrite H2]; cbn; [done|].
      by rewrite Heq. }
    apply NoDup_Permutation; [|done|].
    - apply NoDup_app. split; [|split].
      + eapply (NoDup_fmap_1 (λ l, id (deref σ l))). rewrite named_ids.
        by apply NoDup_filter.
      + intros l [i [Hi Hf]]%list_elem_of_omap [Hni _]%list_elem_of_filter.
        apply find_by_id_some in Hf as [_ <-]. done.
      + by apply NoDup_filter.
    - intros l. rewrite elem_of_app, list_elem_of_omap, list_elem_of_filter. split.
      + intros [(i & _ & Hf)|[_ ?]]; [|done]. by apply find_by_id_some in Hf as [? _].
      + intros Hl. destruct (decide (id (deref σ l) ∈ newOrder)) as [Hin|Hni].
        * left. exists (id (deref σ l)). split; [done|]. by apply find_by_id_first.
        * by right. }
  split; [done|]. unfold view, deref. rewrite Hh. by apply fmap_Permutation.
Qed.

Lemma reorder_permutes_witness :
  references (updateOrder ["C"; "Z"; "A"] Demo.abc).2 ≡ₚ references Demo.abc ∧
  view (updateOrder ["C"; "Z"; "A"] Demo.abc).2 ≡ₚ view Demo.abc.
Proof. apply (reorder_permutes ["C"; "Z"; "A"] Demo.abc); by_evaluation. Defined.

(** Only an add brings a new id into the collection: after a delete or a
    reorder every id is one that was there, and a rename keeps the ids as
    they are, in order. *)
Theorem only_add_makes_ids (σ : State) (i t : string) (newOrder : list string) :
  ids (deleteReference i σ).2 = filter (λ j, j ≠ i) (ids σ) ∧
  ids (updateOrder newOrder σ).2 ⊆ ids σ ∧
  ids (updateReferenceTitle i t σ).2 = ids σ.
Proof.
  split; [|split].
  - rewrite deleteReference_run. cbn [snd]. unfold ids. rewrite deleted_view.
    induction (view σ) as [|r rs IH]; [done|].
    rewrite fmap_cons, !filter_cons. cbn beta.
    destruct (decide (id r ≠ i)); [rewrite fmap_cons|]; by rewrite IH.
  - destruct (reordered_refs newOrder σ) as [Hr Hh]. unfold ids, view, deref.
    rewrite Hr, Hh, <- !list_fmap_compose. intros j [l [-> Hl]]%list_elem_of_fmap.
    apply list_elem_of_fmap. exists l. split; [done|].
    apply elem_of_app in Hl as [[k [_ Hf]]%list_elem_of_omap|[_ ?]%list_elem_of_filter];
      [|done].
    by apply find_by_id_some in Hf as [? _].
  - rewrite updateReferenceTitle_run. destruct (find_by_id σ i) as [l|] eqn:Hf; [|done].
    cbn [snd]. unfold ids. rewrite saved_view. unfold view, deref.
    cbn [references heap set_heap set_ticks]. rewrite <- !list_fmap_compose.
    apply list_fmap_ext. intros n l' _. cbn.
    destruct (decide (l = l')) as [<-|Hne].
    + by rewrite lookup_total_insert_eq.
    + by rewrite lookup_total_insert_ne.
Qed.
End StoreFacts.

(** * Properties of the command that adds a global snippet *)

Section CommandFacts.
Import Commands ScanSpec CommandSpec.

Lemma iteration_counts snippet file v σ :
  Commands.iteration snippet file (Locator.matchCount v, Locator.matchFile v) σ =
  match Locator.iteration snippet file v σ with
  | (Ok r, σ') => (Ok (Locator.matchCount r.1, Locator.matchFile r.1, r.2), σ')
  | (Throw e, σ') => (Throw e, σ')
  | (Untyped, σ') => (Untyped, σ')
  end.
Proof.
  unfold Commands.iteration, Locator.iteration, JS.str_includes, try_catch, bind,
    Locator.openTextDocument.
  destruct (Locator.workspace σ file) as [doc|]; [|reflexivity].
  destruct (negb (JS.indexOf (Locator.getText doc) snippet =? -1)); [|reflexivity].
  cbn [fst snd Locator.matchCount Locator.matchFile].
  destruct (Locator.matchCount v + 1 >? 1); reflexivity.
Qed.

Lemma scan_counts snippet files v σ :
  Commands.scan snippet files (Locator.matchCount v, Locator.matchFile v) σ =
  match Locator.scan snippet files v σ with
  | (Ok v', σ') => (Ok (Locator.matchCount v', Locator.matchFile v'), σ')
  | (Throw e, σ') => (Throw e, σ')
  | (Untyped, σ') => (Untyped, σ')
  end.
Proof.
  revert v σ. induction files as [|file rest IH]; intros v σ; [reflexivity|].
  cbn [Commands.scan Locator.scan]. unfold bind at 1 2.
  rewrite iteration_counts.
  destruct (Locator.iteration snippet file v σ) as [[[v' b]|e|] σ']; [|reflexivity..].
  cbn [fst snd]. destruct b; [reflexivity|]. apply IH.
Qed.

(** The count the command ends with is one exactly when one file holds
    the fragment. *)
Lemma scan_count_one snippet files σ :
  ∃ c scanned,
    Commands.scan snippet files (0, None) σ = (Ok c, after σ scanned) ∧
    (c.1 =? 1) = bool_decide (length (filter (holds σ snippet) files) = 1%nat).
Proof.
  pose proof (scan_counts snippet files Locator.initial σ) as Hs.
  cbn [Locator.initial Locator.matchCount Locator.matchFile] in Hs. rewrite Hs.
  destruct (scan_cases snippet files σ)
    as [[Hn Hrun]
       |[(pre & f & post & doc & -> & Hpre & Hpost & Hw & Hc & Hrun)
        |(pre & f1 & mid & f2 & post & doc1 & doc2 & -> & Hpre & Hmid
          & Hw1 & Hc1 & Hw2 & Hc2 & Hrun)]];
    rewrite Hrun; eexists _, _; (split; [reflexivity|]).
  - by rewrite (filter_none _ _ Hn).
  - rewrite filter_app, filter_cons, (filter_none _ _ Hpre), (filter_none _ _ Hpost).
    by rewrite decide_True by by eapply holds_intro.
  - rewrite !filter_app, !filter_cons, !filter_app, !filter_cons.
    rewrite (filter_none _ _ Hpre), (filter_none _ _ Hmid).
    by rewrite !decide_True by by eapply holds_intro.
Qed.

(** A selection that exactly one workspace file holds is added as a
    global-snippet record, with the selection as snippet and its preview
    as title; the panel is refreshed and the user is told. *)
Theorem unique_snippet_is_added (σ : State) (e : Editor) :
  activeTextEditor σ = Some e → selectionIsEmpty e = false →
  holders σ (selectedText e) = 1%nat →
  ∃ σ',
    addGlobalUniqueSnippet σ = (Ok tt, σ') ∧
    dataManager σ'
    = (Store.addReference (global_snippet_reference (selectedText e)) (dataManager σ)).2 ∧
    posted σ' = (if webviewView σ then posted σ ++ [Store.view (dataManager σ')]
                 else posted σ) ∧
    notices σ' = notices σ ++ [InformationMessage "已添加当前选中的全局唯一片段到面板"].
Proof.
  intros He Hsel Hone. unfold addGlobalUniqueSnippet, bind at 1, gets at 1.
  rewrite He, Hsel. unfold try_catch, bind, onWorkspace, Locator.findFiles, gets.
  cbn [fst snd workspaceState].
  destruct (scan_count_one (selectedText e) (Locator.workspaceFiles (workspaceState σ))
              (workspaceState σ)) as ([c f] & scanned & -> & Hc).
  unfold holders in Hone. rewrite bool_decide_eq_true_2 in Hc by done.
  cbn [fst snd]. cbn [fst] in Hc. rewrite Hc. cbn [negb].
  destruct (addReference_frame (global_snippet_reference (selectedText e))
              (dataManager σ)) as (l & s' & Hadd & _).
  unfold onManager, notifyUpdate, _sendReferences, showInformationMessage, notify, modify.
  fold (global_snippet_reference (selectedText e)).
  cbn [dataManager workspaceState activeTextEditor webviewView posted notices console].
  rewrite Hadd. cbn [fst snd dataManager].
  destruct (webviewView σ); eexists; (split; [reflexivity|]); by repeat split.
Qed.

Lemma unique_snippet_is_added_witness :
  ∃ σ',
    addGlobalUniqueSnippet (session "bar()" ["a.ts"; "x.ts"; "d.ts"]) = (Ok tt, σ') ∧
    Store.view (dataManager σ')
    = Store.view Demo.abc
      ++ [{| id := "ref-1700000000001-k3x9q2m7p"; type := TGlobalSnippet;
             title := "bar()"; filePath := None; snippet := Some "bar()";
             createdAt := "T1700000000000"; updatedAt := "T1700000000000" |}].
Proof.
  destruct (unique_snippet_is_added (session "bar()" ["a.ts"; "x.ts"; "d.ts"])
              {| fsPath := "a.ts"; selectionIsEmpty := false; selectedText := "bar()" |})
    as (σ' & Hrun & Hm & _); [reflexivity|reflexivity|vm_compute; reflexivity|].
  exists σ'. split; [exact Hrun|]. rewrite Hm. vm_compute. reflexivity.
Defined.

(** Without an editor, with an empty selection, or when the number of
    workspace files that hold the selection is not one, the command adds
    nothing: the store and the panel stay as they were and the user gets
    an error message. *)
Theorem other_snippets_are_rejected (σ : State) :
  (∀ e, activeTextEditor σ = Some e → selectionIsEmpty e = false →
        holders σ (selectedText e) ≠ 1%nat) →
  ∃ σ' msg,
    addGlobalUniqueSnippet σ = (Ok tt, σ') ∧
    dataManager σ' = dataManager σ ∧
    posted σ' = posted σ ∧
    notices σ' = notices σ ++ [ErrorMessage msg].
Proof.
  intros Hno. unfold addGlobalUniqueSnippet, bind at 1, gets at 1.
  destruct (activeTextEditor σ) as [e|] eqn:He.
  2: { eexists _, _. split; [reflexivity|]. by repeat split. }
  destruct (selectionIsEmpty e) eqn:Hsel.
  { eexists _, _. split; [reflexivity|]. by repeat split. }
  specialize (Hno e eq_refl Hsel).
  unfold try_catch, bind, onWorkspace, Locator.findFiles, gets.
  cbn [fst snd workspaceState].
  destruct (scan_count_one (selectedText e) (Locator.workspaceFiles (workspaceState σ))
              (workspaceState σ)) as ([c f] & scanned & -> & Hc).
  unfold holders in Hno. rewrite bool_decide_eq_false_2 in Hc by done.
  cbn [fst snd]. cbn [fst] in Hc. rewrite Hc. cbn [negb].
  eexists _, _. split; [reflexivity|]. by repeat split.
Qed.

Lemma other_snippets_are_rejected_witness :
  ∃ σ' msg,
    addGlobalUniqueSnippet (session "foo()" ["a.ts"; "b.ts"; "d.ts"]) = (Ok tt, σ') ∧
    dataManager σ' = Demo.abc ∧
    posted σ' = [] ∧
    notices σ' = [ErrorMessage msg].
Proof.
  apply (other_snippets_are_rejected (session "foo()" ["a.ts"; "b.ts"; "d.ts"])).
  intros e [= <-] _. vm_compute. discriminate.
Defined.

Lemma app_empty_r (s : string) : s +:+ "" = s.
Proof. induction s as [|c s IH]; [done|]. rewrite app_String. by f_equal. Qed.

Lemma substring_all (s : string) (n : nat) :
  (String.length s ≤ n)%nat → String.substring 0 n s = s.
Proof.
  revert n. induction s as [|c s IH]; intros [|n] Hn; cbn in *; try done; try lia.
  f_equal. apply IH. lia.
Qed.

Lemma substring_length (s : string) (n : nat) :
  (n ≤ String.length s)%nat → String.length (String.substring 0 n s) = n.
Proof.
  revert n. induction s as [|c s IH]; intros [|n] Hn; cbn in *; try done; try lia.
  f_equal. apply IH. lia.
Qed.

(** The title the commands make of a snippet is the snippet itself when it
    has at most 50 characters, and else its first 50 characters followed
    by three dots; it never has more than 53 characters. *)
Theorem snippetPreview_bounds (snippet : string) :
  snippetPreview snippet
  = (if decide (String.length snippet ≤ 50)%nat then snippet
     else String.substring 0 50 snippet +:+ "...") ∧
  (String.length (snippetPreview snippet) ≤ 53)%nat.
Proof.
  unfold snippetPreview, JS.substring, JS.length.
  change (50 - 0)%nat with 50%nat.
  destruct (decide (String.length snippet ≤ 50)%nat) as [Hle|Hgt].
  - assert ((Z.of_nat (String.length snippet) >? 50) = false) as -> by lia.
    rewrite substring_all by done.
    rewrite app_empty_r.
    split; [done|lia].
  - assert ((Z.of_nat (String.length snippet) >? 50) = true) as -> by lia.
    split; [done|]. rewrite length_append, substring_length by lia. cbn. lia.
Qed.
End CommandFacts.

(** * Properties of the jumps to a file *)

Section NavigateFacts.
Import Navigate ScanSpec NavigateSpec.

Lemma with_events_nil σ : with_events [] σ = σ.
Proof. destruct σ. unfold with_events. cbn. by rewrite app_nil_r. Qed.

Lemma with_events_app a b σ : with_events b (with_events a σ) = with_events (a ++ b) σ.
Proof. unfold with_events. cbn. by rewrite app_assoc. Qed.

Lemma emit_run e σ : emit e σ = (Ok tt, with_events [e] σ).
Proof. reflexivity. Qed.

Lemma gather_run filePath folders matches σ :
  gather filePath folders matches σ
  = (Ok (matches ++ candidates σ filePath folders), σ).
Proof.
  unfold candidates. revert matches.
  induction folders as [|folder rest IH]; intros matches.
  - cbn. by rewrite app_nil_r.
  - cbn [gather length replicate concat]. unfold bind, findFiles, gets.
    rewrite IH. by rewrite app_assoc.
Qed.

Lemma showTextDocument_run uri selection doc σ :
  documents σ uri = Some doc →
  showTextDocument uri selection σ = (Ok doc, with_events [Shown uri selection] σ).
Proof.
  intros Hd. unfold showTextDocument, bind, openTextDocument. by rewrite Hd.
Qed.

Lemma showTextDocument_fail uri selection σ :
  documents σ uri = None →
  showTextDocument uri selection σ = (Throw (OpenFailed uri), σ).
Proof.
  intros Hd. unfold showTextDocument, bind, openTextDocument. by rewrite Hd.
Qed.

(** For a relative path [jumpToFile] opens the first file that
    [findFiles] returns.  It warns of several matches exactly when the
    number of workspace folders times the number of files found exceeds
    one: the search is repeated for every folder, so with two folders also
    a single file found is announced as several. *)
Theorem jumpToFile_opens_first_found (filePath : string) (folders : list string)
    (first : Locator.Uri) (others : list Locator.Uri) (σ : State) :
  isAbsolute σ filePath = false →
  workspaceFolders σ = Some folders → folders ≠ [] →
  found σ ("**/" +:+ filePath) = first :: others →
  is_Some (documents σ first) →
  ∃ σ',
    jumpToFile filePath σ = (Ok tt, σ') ∧
    events σ'
    = events σ
      ++ (if decide (1 < length folders * length (first :: others))%nat
          then [WarningMessage ("找到多个匹配文件，将打开第一个：" +:+ filePath)]
          else [])
      ++ [Shown first None].
Proof.
  intros Habs Hfolders Hne Hfound [doc Hdoc].
  unfold jumpToFile, try_catch, bind at 1. unfold jumpToFile_resolve, bind at 1, gets at 1.
  rewrite Habs. unfold bind at 1, gets at 1. rewrite Hfolders.
  destruct folders as [|folder rest]; [done|].
  unfold bind at 1. rewrite gather_run. unfold candidates. rewrite Hfound.
  cbn [length replicate concat app].
  match goal with
  | |- context [Z.of_nat ?n >? 1] =>
    assert ((Z.of_nat n >? 1)
            = bool_decide (1 < S (length rest) * length (first :: others))%nat) as Hlen
  end.
  { rewrite length_app.
    assert (length (concat (replicate (length rest) (first :: others)))
            = (length rest * S (length others))%nat) as ->.
    { induction (length rest) as [|n IH]; [done|].
      cbn [replicate concat]. rewrite length_app, IH. cbn [length]. lia. }
    cbn [length]. rewrite Nat.mul_succ_l.
    generalize (length rest * S (length others))%nat. intros m.
    rewrite Z.gtb_ltb. case_bool_decide; [apply Z.ltb_lt|apply Z.ltb_ge]; lia. }
  rewrite Hlen. unfold bind at 1.
  destruct (decide (1 < S (length rest) * length (first :: others))%nat) as [Hm|Hm].
  - rewrite bool_decide_eq_true_2 by done. rewrite emit_run. unfold ret, bind.
    rewrite (showTextDocument_run first None doc) by done.
    rewrite with_events_app. eexists. split; [reflexivity|]. cbn [events with_events].
    by rewrite decide_True by done.
  - rewrite bool_decide_eq_false_2 by done. unfold ret, bind.
    rewrite (showTextDocument_run first None doc) by done.
    eexists. split; [reflexivity|]. cbn [events with_events].
    by rewrite decide_False by done.
Qed.

Lemma jumpToFile_opens_first_found_witness :
  ∃ σ',
    jumpToFile "util.ts" (site (Some ["/w1"; "/w2"]) ["a.ts"]) = (Ok tt, σ') ∧
    events σ'
    = [WarningMessage "找到多个匹配文件，将打开第一个：util.ts"; Shown "a.ts" None].
Proof.
  destruct (jumpToFile_opens_first_found "util.ts" ["/w1"; "/w2"] "a.ts" []
              (site (Some ["/w1"; "/w2"]) ["a.ts"]))
    as (σ' & Hrun & Hev); [reflexivity|reflexivity|done|reflexivity|by eexists|].
  exists σ'. split; [exact Hrun|]. rewrite Hev. reflexivity.
Defined.

Lemma pick_run snippet matches σ :
  ∃ added,
    pick snippet matches σ
    = (Ok (snd <$> list_find (fits σ snippet) matches), with_events added σ) ∧
    shown added = [].
Proof.
  revert σ. induction matches as [|candidate rest IH]; intros σ.
  - exists []. by rewrite with_events_nil.
  - cbn [pick list_find]. unfold bind at 1, try_catch, bind at 1, openTextDocument.
    destruct (documents σ candidate) as [doc|] eqn:Hd.
    + unfold JS.str_includes.
      destruct (decide (contains (Locator.getText doc) snippet)) as [Hc|Hc].
      * destruct (indexOf_found _ _ Hc) as (n & _ & ->).
        assert (negb (Z.of_nat n =? -1) = true) as -> by (apply negb_true_iff, Z.eqb_neq; lia).
        rewrite decide_True by (unfold fits; by rewrite Hd).
        exists []. by rewrite with_events_nil.
      * rewrite (indexOf_missing _ _ Hc), Z.eqb_refl. cbn [negb].
        rewrite decide_False by (unfold fits; by rewrite Hd).
        unfold ret at 1. cbv beta iota.
        destruct (IH σ) as (added & -> & Hs). exists added. split; [|done].
        by destruct (list_find (fits σ snippet) rest) as [[??]|].
    + rewrite decide_False by (unfold fits; rewrite Hd; tauto).
      unfold bind at 1. rewrite emit_run. unfold ret at 1. cbv beta iota.
      destruct (IH (with_events [ConsoleError ("无法打开文件：" +:+ candidate)
                                   (OpenFailed candidate)] σ)) as (added & -> & Hs).
      rewrite with_events_app. eexists. split.
      * change (fits (with_events ?a σ)) with (fits σ).
        by destruct (list_find (fits σ snippet) rest) as [[??]|].
      * done.
Qed.

(** The part of [jumpToFileAndSnippet] after the choice of the file. *)
Lemma jumpToFileAndSnippet_lands filePath snippet uri doc σ σ1 :
  jumpToFileAndSnippet_resolve filePath snippet σ = (Ok (Some uri), σ1) →
  documents σ1 uri = Some doc →
  jumpToFileAndSnippet filePath snippet σ
  = (Ok tt, with_events (landing snippet uri doc) σ1).
Proof.
  intros Hres Hd. unfold jumpToFileAndSnippet, try_catch, bind at 1. rewrite Hres.
  unfold bind at 1. rewrite (showTextDocument_run uri None doc) by done.
  unfold landing. destruct (decide (contains (Locator.getText doc) snippet)) as [Hc|Hc].
  - destruct (indexOf_found _ _ Hc) as (n & _ & Hi). rewrite Hi.
    assert (negb (Z.of_nat n =? -1) = true) as -> by (apply negb_true_iff, Z.eqb_neq; lia).
    unfold bind. rewrite (showTextDocument_run uri _ doc) by done.
    rewrite emit_run, !with_events_app. unfold selection. rewrite Hi. reflexivity.
  - rewrite (indexOf_missing _ _ Hc), Z.eqb_refl. cbn [negb].
    rewrite emit_run, with_events_app. reflexivity.
Qed.

Lemma jumpToFileAndSnippet_returns filePath snippet σ σ1 :
  jumpToFileAndSnippet_resolve filePath snippet σ = (Ok None, σ1) →
  jumpToFileAndSnippet filePath snippet σ = (Ok tt, σ1).
Proof.
  intros Hres. unfold jumpToFileAndSnippet, try_catch, bind at 1. by rewrite Hres.
Qed.

Lemma candidates_nil σ filePath : candidates σ filePath [] = [].
Proof. reflexivity. Qed.

Lemma shown_app a b : shown (a ++ b) = shown a ++ shown b.
Proof. apply omap_app. Qed.

Lemma jumpToFileAndSnippet_resolve_several filePath snippet folders first second others σ :
  isAbsolute σ filePath = false →
  workspaceFolders σ = Some folders →
  candidates σ filePath folders = first :: second :: others →
  ∃ skipped closing,
    jumpToFileAndSnippet_resolve filePath snippet σ
    = (Ok (snd <$> list_find (fits σ snippet) (first :: second :: others)),
       with_events (skipped ++ [closing]) σ) ∧
    shown skipped = [] ∧
    closing
    = match list_find (fits σ snippet) (first :: second :: others) with
      | Some (_, target) =>
        InformationMessage ("已筛选出包含代码片段的文件：" +:+ basename σ target)
      | None =>
        ErrorMessage ("找到" +:+ pretty (Z.of_nat (length (first :: second :: others)))
                      +:+ "个匹配文件，但没有包含指定代码片段的文件：" +:+ filePath)
      end.
Proof.
  intros Habs Hf Hc. unfold jumpToFileAndSnippet_resolve, bind at 1, gets at 1.
  rewrite Habs. unfold bind at 1, gets at 1. rewrite Hf.
  destruct folders as [|folder rest]; [done|].
  unfold bind at 1. rewrite gather_run. cbn [app]. rewrite Hc.
  unfold bind at 1. rewrite emit_run. unfold bind at 1.
  match goal with
  | |- context [pick snippet ?ms ?s] => destruct (pick_run snippet ms s) as (added & -> & Hs)
  end.
  match goal with
  | |- context [fits (with_events ?a σ)] => change (fits (with_events a σ)) with (fits σ)
  end.
  destruct (list_find (fits σ snippet) (first :: second :: others)) as [[i target]|].
  - cbn [fmap option_fmap option_map snd]. unfold bind at 1, gets at 1.
    unfold bind at 1. rewrite emit_run. unfold ret.
    rewrite !with_events_app. eexists (_ :: added), _. split; [reflexivity|].
    split; [exact Hs|reflexivity].
  - cbn [fmap option_fmap option_map snd]. unfold bind at 1. rewrite emit_run. unfold ret.
    rewrite !with_events_app. eexists (_ :: added), _. split; [reflexivity|].
    split; [exact Hs|reflexivity].
Qed.

(** With a relative path for which several candidates are found,
    [jumpToFileAndSnippet] opens the first candidate that can be opened
    and contains the snippet, and selects the first occurrence there;
    when no candidate does, it opens nothing and ends with an error
    message. *)
Theorem several_candidates_first_fit (filePath snippet : string) (folders : list string)
    (σ : State) :
  isAbsolute σ filePath = false →
  workspaceFolders σ = Some folders →
  (1 < length (candidates σ filePath folders))%nat →
  ∃ added,
    jumpToFileAndSnippet filePath snippet σ = (Ok tt, with_events added σ) ∧
    match list_find (fits σ snippet) (candidates σ filePath folders) with
    | Some (_, target) =>
      ∃ doc,
        documents σ target = Some doc ∧
        shown added = [(target, None); (target, Some (selection snippet doc))] ∧
        last added = Some (Revealed target (selection snippet doc))
    | None =>
      shown added = [] ∧
      last added
      = Some (ErrorMessage
                ("找到" +:+ pretty (Z.of_nat (length (candidates σ filePath folders)))
                 +:+ "个匹配文件，但没有包含指定代码片段的文件：" +:+ filePath))
    end.
Proof.
  intros Habs Hf Hlen.
  destruct (candidates σ filePath folders) as [|first [|second others]] eqn:Hc;
    [cbn in Hlen; lia|cbn in Hlen; lia|].
  destruct (jumpToFileAndSnippet_resolve_several filePath snippet folders first second
              others σ Habs Hf Hc) as (skipped & closing & Hres & Hs & Hclosing).
  destruct (list_find (fits σ snippet) (first :: second :: others))
    as [[i target]|] eqn:Hfind.
  - apply list_find_Some in Hfind as (_ & Hfits & _).
    unfold fits in Hfits. destruct (documents σ target) as [doc|] eqn:Hd; [|done].
    cbn [fmap option_fmap option_map snd] in Hres.
    rewrite (jumpToFileAndSnippet_lands _ _ _ doc _ _ Hres) by done.
    rewrite with_events_app. eexists. split; [reflexivity|].
    exists doc. split; [done|]. unfold landing. rewrite decide_True by done.
    rewrite !shown_app, Hs, Hclosing. split; [reflexivity|].
    by rewrite last_app.
  - cbn [fmap option_fmap option_map] in Hres.
    rewrite (jumpToFileAndSnippet_returns _ _ _ _ Hres).
    eexists. split; [reflexivity|]. rewrite shown_app, Hs, Hclosing.
    split; [reflexivity|]. by rewrite last_snoc.
Qed.

Lemma several_candidates_first_fit_witness :
  ∃ added,
    jumpToFileAndSnippet "util.ts" "foo()" (site (Some ["/w"]) ["d.ts"; "a.ts"; "b.ts"])
    = (Ok tt, with_events added (site (Some ["/w"]) ["d.ts"; "a.ts"; "b.ts"])) ∧
    shown added
    = [("a.ts", None);
       ("a.ts", Some ({| Locator.line := 0; Locator.character := 8 |},
                      {| Locator.line := 0; Locator.character := 13 |}))].
Proof.
  destruct (several_candidates_first_fit "util.ts" "foo()" ["/w"]
              (site (Some ["/w"]) ["d.ts"; "a.ts"; "b.ts"]))
    as (added & Hrun & Hm); [reflexivity|reflexivity|vm_compute; lia|].
  exists added. split; [exact Hrun|].
  vm_compute in Hm. destruct Hm as (doc & Hd & Hs & _).
  injection Hd as <-. exact Hs.
Defined.

(** An absolute path, or the only candidate of a relative one, is opened
    without a look at its text: when the snippet is not in it, the file
    stays open and a warning is shown. *)
Theorem sole_candidate_is_opened (filePath snippet : string) (uri : Locator.Uri)
    (doc : Locator.TextDocument) (σ : State) :
  (if isAbsolute σ filePath then uri = filePath
   else ∃ folders, workspaceFolders σ = Some folders ∧
                   candidates σ filePath folders = [uri]) →
  documents σ uri = Some doc →
  jumpToFileAndSnippet filePath snippet σ
  = (Ok tt, with_events (landing snippet uri doc) σ).
Proof.
  intros Hsole Hd.
  assert (jumpToFileAndSnippet_resolve filePath snippet σ = (Ok (Some uri), σ)) as Hres.
  { unfold jumpToFileAndSnippet_resolve, bind at 1, gets at 1.
    destruct (isAbsolute σ filePath); [by subst|].
    destruct Hsole as (folders & Hf & Hc). unfold bind at 1, gets at 1. rewrite Hf.
    destruct folders as [|folder rest]; [done|].
    unfold bind at 1. rewrite gather_run. cbn [app]. by rewrite Hc. }
  by apply jumpToFileAndSnippet_lands.
Qed.

Lemma sole_candidate_is_opened_witness :
  jumpToFileAndSnippet "util.ts" "foo()" (site (Some ["/w"]) ["d.ts"])
  = (Ok tt,
     with_events [Shown "d.ts" None; WarningMessage "文件中未找到指定代码片段：d.ts"]
       (site (Some ["/w"]) ["d.ts"])).
Proof.
  destruct (Locator.workspace (sample []) "d.ts") as [doc|] eqn:Hd; [|by vm_compute in Hd].
  rewrite (sole_candidate_is_opened "util.ts" "foo()" "d.ts" doc);
    [|by exists ["/w"]|exact Hd].
  vm_compute in Hd. injection Hd as <-. reflexivity.
Defined.

Lemma jumpToFile_resolve_run filePath σ :
  ∃ r added, jumpToFile_resolve filePath σ = (Ok r, with_events added σ).
Proof.
  unfold jumpToFile_resolve, bind at 1, gets at 1.
  destruct (isAbsolute σ filePath).
  { exists (Some filePath), []. by rewrite with_events_nil. }
  unfold bind at 1, gets at 1.
  destruct (workspaceFolders σ) as [[|folder rest]|]; [by eexists _, _| |by eexists _, _].
  unfold bind at 1. rewrite gather_run. cbn [app].
  destruct (candidates σ filePath (folder :: rest)) as [|first others]; [by eexists _, _|].
  unfold bind at 1.
  destruct (Z.of_nat (length (first :: others)) >? 1).
  - by eexists _, _.
  - exists (Some first), []. by rewrite with_events_nil.
Qed.

Lemma jumpToFileAndSnippet_resolve_run filePath snippet σ :
  ∃ r added, jumpToFileAndSnippet_resolve filePath snippet σ = (Ok r, with_events added σ).
Proof.
  destruct (isAbsolute σ filePath) eqn:Habs.
  { unfold jumpToFileAndSnippet_resolve, bind at 1, gets at 1. rewrite Habs.
    exists (Some filePath), []. by rewrite with_events_nil. }
  destruct (workspaceFolders σ) as [folders|] eqn:Hf.
  - destruct (candidates σ filePath folders) as [|first [|second others]] eqn:Hc.
    + unfold jumpToFileAndSnippet_resolve, bind at 1, gets at 1. rewrite Habs.
      unfold bind at 1, gets at 1. rewrite Hf.
      destruct folders as [|folder rest]; [by eexists _, _|].
      unfold bind at 1. rewrite gather_run. cbn [app]. rewrite Hc. by eexists _, _.
    + unfold jumpToFileAndSnippet_resolve, bind at 1, gets at 1. rewrite Habs.
      unfold bind at 1, gets at 1. rewrite Hf.
      destruct folders as [|folder rest]; [done|].
      unfold bind at 1. rewrite gather_run. cbn [app]. rewrite Hc.
      exists (Some first), []. by rewrite with_events_nil.
    + destruct (jumpToFileAndSnippet_resolve_several filePath snippet folders first second
                  others σ Habs Hf Hc) as (skipped & closing & -> & _).
      by eexists _, _.
  - unfold jumpToFileAndSnippet_resolve, bind at 1, gets at 1. rewrite Habs.
    unfold bind at 1, gets at 1. rewrite Hf. by eexists _, _.
Qed.

(** Neither function throws, whatever the path, the workspace and the
    files are: a file that cannot be opened ends in the catch block, which
    only reports.  Both change nothing but the editor and the messages. *)
Theorem navigation_never_throws (filePath snippet : string) (σ : State) :
  ∃ added1 added2,
    jumpToFile filePath σ = (Ok tt, with_events added1 σ) ∧
    jumpToFileAndSnippet filePath snippet σ = (Ok tt, with_events added2 σ).
Proof.
  destruct (jumpToFile_resolve_run filePath σ) as (r1 & a1 & H1).
  destruct (jumpToFileAndSnippet_resolve_run filePath snippet σ) as (r2 & a2 & H2).
  assert (∃ added1, jumpToFile filePath σ = (Ok tt, with_events added1 σ)) as [added1 ->].
  { unfold jumpToFile, try_catch, bind at 1. rewrite H1.
    destruct r1 as [uri|]; [|by eexists].
    unfold bind at 1. destruct (documents σ uri) as [doc|] eqn:Hd.
    - rewrite (showTextDocument_run uri None doc) by done.
      rewrite with_events_app. by eexists.
    - rewrite showTextDocument_fail by done. unfold bind. rewrite !emit_run.
      rewrite !with_events_app. by eexists. }
  assert (∃ added2, jumpToFileAndSnippet filePath snippet σ = (Ok tt, with_events added2 σ))
    as [added2 ->]; [|by eexists _, _].
  destruct r2 as [uri|].
  - destruct (documents σ uri) as [doc|] eqn:Hd.
    + rewrite (jumpToFileAndSnippet_lands filePath snippet uri doc σ _ H2) by done.
      rewrite with_events_app. by eexists.
    + unfold jumpToFileAndSnippet, try_catch, bind at 1. rewrite H2.
      unfold bind at 1. rewrite showTextDocument_fail by done. unfold bind.
      rewrite !emit_run. rewrite !with_events_app. by eexists.
  - rewrite (jumpToFileAndSnippet_returns _ _ _ _ H2). by eexists.
Qed.

(** An absolute path that cannot be opened: nothing is shown, the error
    goes to the console and into one error message. *)
Theorem unopenable_file_is_reported (filePath snippet : string) (σ : State) :
  isAbsolute σ filePath = true →
  documents σ filePath = None →
  jumpToFile filePath σ
  = (Ok tt, with_events [ConsoleError "Failed to jump to file:" (OpenFailed filePath);
                         ErrorReport "跳转到文件失败：" (OpenFailed filePath)] σ) ∧
  jumpToFileAndSnippet filePath snippet σ
  = (Ok tt, with_events [ConsoleError "Failed to jump to file and snippet:"
                           (OpenFailed filePath);
                         ErrorReport "跳转到文件并搜索代码片段失败：" (OpenFailed filePath)] σ).
Proof.
  intros Habs Hd. split.
  - unfold jumpToFile, try_catch, bind at 1, jumpToFile_resolve, bind at 1, gets at 1.
    rewrite Habs. unfold ret at 1. unfold bind at 1.
    rewrite showTextDocument_fail by done. unfold bind. by rewrite !emit_run, with_events_app.
  - unfold jumpToFileAndSnippet, try_catch, bind at 1, jumpToFileAndSnippet_resolve,
      bind at 1, gets at 1.
    rewrite Habs. unfold ret at 1. unfold bind at 1.
    rewrite showTextDocument_fail by done. unfold bind. by rewrite !emit_run, with_events_app.
Qed.

Lemma unopenable_file_is_reported_witness :
  shown (events (jumpToFile "/gone.ts" (site None [])).2) = [] ∧
  shown (events (jumpToFileAndSnippet "/gone.ts" "foo()" (site None [])).2) = [].
Proof.
  destruct (unopenable_file_is_reported "/gone.ts" "foo()" (site None [])) as [-> ->];
    [reflexivity|reflexivity|]. split; reflexivity.
Defined.

(** With a relative path and no workspace folder, or no file found for
    it, neither function opens anything: each shows one error message. *)
Theorem nothing_found_opens_nothing (filePath snippet : string) (σ : State) :
  isAbsolute σ filePath = false →
  candidates σ filePath (default [] (workspaceFolders σ)) = [] →
  ∃ msg σ1 σ2,
    jumpToFile filePath σ = (Ok tt, σ1) ∧
    events σ1 = events σ ++ [ErrorMessage msg] ∧
    jumpToFileAndSnippet filePath snippet σ = (Ok tt, σ2) ∧
    events σ2 = events σ ++ [ErrorMessage msg].
Proof.
  intros Habs Hnone.
  assert (∃ msg,
            jumpToFile_resolve filePath σ = (Ok None, with_events [ErrorMessage msg] σ) ∧
            jumpToFileAndSnippet_resolve filePath snippet σ
            = (Ok None, with_events [ErrorMessage msg] σ)) as (msg & H1 & H2).
  { unfold jumpToFile_resolve, jumpToFileAndSnippet_resolve.
    destruct (workspaceFolders σ) as [[|folder rest]|] eqn:Hf.
    - eexists. split; unfold bind at 1, gets at 1; rewrite Habs;
        unfold bind at 1, gets at 1; rewrite Hf; reflexivity.
    - eexists. split; unfold bind at 1, gets at 1; rewrite Habs;
        unfold bind at 1, gets at 1; rewrite Hf;
        unfold bind at 1; rewrite gather_run; cbn [app];
        change (candidates σ filePath (folder :: rest) = []) in Hnone;
        rewrite Hnone; reflexivity.
    - eexists. split; unfold bind at 1, gets at 1; rewrite Habs;
        unfold bind at 1, gets at 1; rewrite Hf; reflexivity. }
  exists msg. eexists _, _.
  split; [unfold jumpToFile, try_catch, bind at 1; rewrite H1; reflexivity|].
  split; [done|].
  split; [by apply jumpToFileAndSnippet_returns|done].
Qed.

Lemma nothing_found_opens_nothing_witness :
  ∃ msg σ1 σ2,
    jumpToFile "util.ts" (site None ["a.ts"]) = (Ok tt, σ1) ∧
    events σ1 = [ErrorMessage msg] ∧
    jumpToFileAndSnippet "util.ts" "foo()" (site None ["a.ts"]) = (Ok tt, σ2) ∧
    events σ2 = [ErrorMessage msg].
Proof.
  apply (nothing_found_opens_nothing "util.ts" "foo()" (site None ["a.ts"]));
    reflexivity.
Defined.
End NavigateFacts.
